(** * firetrail: annotation persistence layer and section navigator

    A shallow embedding of [FirebaseCanvasStorage] (firebase-storage.js) and of
    the section carousel of [QuizApp] (js/app.js), with the properties their
    specification states about them.

    Layout: strings and key derivation; the browser and Firestore
    collaborators; a state-and-exception monad for the async methods; the
    methods of the storage class; the navigator; then the theorems. *)

From Stdlib Require Import ZArith Ascii String List Lia.
From stdpp Require Import base decidable strings pretty gmap fin_maps.

Local Open Scope Z_scope.

(* ===================================================================== *)
(** ** JavaScript strings and truthiness *)
(* ===================================================================== *)

Module Js.

(** [String(n)] / [n.toString()] / a template hole for an integer-valued
    number: plain decimal digits with a leading minus sign. *)
Definition toString (n : Z) : string := pretty n.

(** [ToBoolean] on a string-or-null value: [null], [undefined] and the
    empty string are falsy. *)
Definition truthy (v : option string) : bool :=
  match v with
  | None => false
  | Some EmptyString => false
  | Some (String _ _) => true
  end.

(** [a || b] on string-or-null operands with a string default. *)
Definition or_else (v : option string) (d : string) : string :=
  match v with
  | Some s => if truthy v then s else d
  | None => d
  end.

(** [String.prototype.padStart(n, c)] for a one-character filler. *)
Fixpoint fill (k : nat) (c : ascii) (s : string) : string :=
  match k with
  | O => s
  | S k' => String c (fill k' c s)
  end.

Definition padStart (n : nat) (c : ascii) (s : string) : string :=
  fill (n - String.length s) c s.

Definition hex_digit (d : N) : ascii :=
  match d with
  | 0 => "0" | 1 => "1" | 2 => "2" | 3 => "3" | 4 => "4" | 5 => "5"
  | 6 => "6" | 7 => "7" | 8 => "8" | 9 => "9" | 10 => "a" | 11 => "b"
  | 12 => "c" | 13 => "d" | 14 => "e" | _ => "f"
  end%char%N.

(** [b.toString(16)] for a byte [b]. *)
Definition toString16 (b : Byte.byte) : string :=
  let n := Byte.to_N b in
  if (n <? 16)%N then String (hex_digit n) EmptyString
  else String (hex_digit (n / 16)) (String (hex_digit (n mod 16)) EmptyString).

(** [Array.prototype.join('')]. *)
Fixpoint join (l : list string) : string :=
  match l with
  | [] => EmptyString
  | s :: l' => s +:+ join l'
  end.

(** Does the character occur in the string? *)
Fixpoint mentions (c : ascii) (s : string) : bool :=
  match s with
  | EmptyString => false
  | String a s' => if Ascii.eqb a c then true else mentions c s'
  end.

End Js.

(* ===================================================================== *)
(** ** Collaborators supplied by the browser *)
(* ===================================================================== *)

(** A raster surface: the [<canvas>] element the presentation layer owns. *)
Record Canvas := {
  width : Z;
  height : Z;
  pixels : string
}.

(** The DOM nodes [canvasToSVG] builds. *)
#[warnings="-register-all"]
Inductive Element :=
| El (tag : string) (attrs : list (string * string)) (children : list Element).

(** The Web APIs the storage class calls.  They are external to the
    repository, so the development is parametric in them. *)
Class Browser := {
  (** [crypto.subtle.digest('SHA-256', bytes)] *)
  digest : list Byte.byte -> list Byte.byte;
  (** [canvas.toDataURL('image/png')] *)
  toDataURL : Canvas -> string;
  (** [new XMLSerializer().serializeToString(node)] *)
  serializeToString : Element -> string;
  (** [DOMParser.parseFromString] followed by [querySelector('image')] and
      [getAttribute('href')], the value that is then assigned to [img.src];
      [None] when there is no image element. *)
  parseImageHref : string -> option string;
  (** Setting [img.src]: [Some bitmap] fires [onload], [None] fires [onerror]. *)
  loadImage : string -> option string;
  (** [ctx.clearRect(0,0,w,h)] then [ctx.drawImage(img,0,0)]. *)
  drawImage : Canvas -> string -> Canvas
}.

(* ===================================================================== *)
(** ** KeyDeriver: [hashString], [getFileHash], [getCanvasKey] *)
(* ===================================================================== *)

Section KeyDeriver.
Context {browser : Browser}.

(** [new TextEncoder().encode(str)]: a string is kept as its UTF-8 bytes. *)
Definition encode (str : string) : list Byte.byte := list_byte_of_string str.

Definition hashString (str : string) : string :=
  let data := encode str in
  let hashArray := digest data in
  Js.join (map (fun b => Js.padStart 2 "0" (Js.toString16 b)) hashArray).

Definition getFileHash (filePath : option string) : string :=
  hashString (Js.or_else filePath "default").

Definition getCanvasKey (questionId partId : Z) (sectionId : option Z) : string :=
  match sectionId with
  | Some sec =>
      "section_" +:+ Js.toString sec +:+ "_q" +:+ Js.toString questionId
        +:+ "_p" +:+ Js.toString partId
  | None => "q" +:+ Js.toString questionId +:+ "_p" +:+ Js.toString partId
  end.

(** The template [`${fileHash}_${key}`] that names the remote document and
    the cache slot. *)
Definition fullKey (fileHash : string) (questionId partId : Z)
    (sectionId : option Z) : string :=
  fileHash +:+ "_" +:+ getCanvasKey questionId partId sectionId.

End KeyDeriver.

(* ===================================================================== *)
(** ** Records, the remote collection and the world around the store *)
(* ===================================================================== *)

(** A Firestore timestamp field.  [serverTimestamp()] is a sentinel that the
    server replaces by its own time when the write commits; the cache holds
    the client's [new Date().toISOString()] instead. *)
Inductive Timestamp :=
| ServerTimestampSentinel
| ServerTime (t : N)
| LocalISO (t : N).

(** The document written for one drawing ([canvasDoc] in the source). *)
Record CanvasDoc := {
  svg : string;
  timestamp : Timestamp;
  dimensions : Z * Z;
  fileId : string;
  doc_questionId : string;
  doc_partId : string;
  doc_sectionId : option string;
  importedAt : option Timestamp
}.

Definition with_timestamp (d : CanvasDoc) (t : Timestamp) : CanvasDoc :=
  {| svg := svg d; timestamp := t; dimensions := dimensions d;
     fileId := fileId d; doc_questionId := doc_questionId d;
     doc_partId := doc_partId d; doc_sectionId := doc_sectionId d;
     importedAt := importedAt d |}.

Definition with_importedAt (d : CanvasDoc) (t : Timestamp) : CanvasDoc :=
  {| svg := svg d; timestamp := timestamp d; dimensions := dimensions d;
     fileId := fileId d; doc_questionId := doc_questionId d;
     doc_partId := doc_partId d; doc_sectionId := doc_sectionId d;
     importedAt := Some t |}.

(** What the server stores: sentinels replaced by the commit time. *)
Definition resolve_stamp (now : N) (t : Timestamp) : Timestamp :=
  match t with
  | ServerTimestampSentinel => ServerTime now
  | _ => t
  end.

Definition resolve (now : N) (d : CanvasDoc) : CanvasDoc :=
  {| svg := svg d; timestamp := resolve_stamp now (timestamp d);
     dimensions := dimensions d; fileId := fileId d;
     doc_questionId := doc_questionId d; doc_partId := doc_partId d;
     doc_sectionId := doc_sectionId d;
     importedAt := resolve_stamp now <$> importedAt d |}.

(** JavaScript [Error] values, by message. *)
Inductive JsError := Error (message : string).

Definition message_of (e : JsError) : string :=
  match e with Error m => m end.

(** One round trip to Firestore. *)
Inductive RemoteCall :=
| GetDoc (id : string)
| SetDoc (id : string)
| DeleteDoc (id : string)
| GetDocs
| BatchCommit (operations : nat).

(** An operation queued on a [writeBatch]. *)
Inductive BatchOp :=
| BatchSet (id : string) (d : CanvasDoc)
| BatchDelete (id : string).

Inductive LogLevel := LogInfo | LogWarn | LogError.

(** The object serialised by [exportAllCanvases] and read back by
    [importCanvases]; a field that is missing from a parsed file is [None]. *)
Record ExportData := {
  exp_userId : option string;
  exp_timestamp : option N;
  exp_version : option string;
  exp_source : option string;
  canvases : option (gmap string CanvasDoc)
}.

(** What [JSON.parse] makes of a file's text: a syntax error, [null], or an
    object (any other value behaves as an object without fields). *)
Inductive Json :=
| SyntaxError (message : string)
| JsonNull
| JsonObject (data : ExportData).

(** What [FileReader.readAsText] delivers: [onerror], or [onload] with a
    text, kept as what [JSON.parse] makes of it. *)
Inductive File :=
| Unreadable
| Readable (text : Json).

(** The fields of a [FirebaseCanvasStorage] instance. *)
Record Storage := {
  userId : option string;
  canvasData : gmap string CanvasDoc;
  isLoading : bool;
  hasLoadedFromFirebase : bool
}.

(** Everything outside the storage object.  [collection] is the content of
    [users/<userId>/canvases].  [faults] schedules the coming round trips:
    [Some m] makes the next one reject with [Error m] (network, permission,
    or a reference Firestore refuses), [None] lets it succeed, and an
    exhausted schedule means no further failure.  [calls] records every
    round trip together with the storage object as any other task sees it
    while the call is in flight. *)
Record World := {
  collection : gmap string CanvasDoc;
  faults : list (option string);
  clock : N;
  calls : list (RemoteCall * Storage);
  console : list (LogLevel * string);
  downloads : list ExportData
}.

Record State := {
  this : Storage;
  world : World
}.

(** [new FirebaseCanvasStorage(userId)] *)
Definition constructor (uid : option string) : Storage :=
  {| userId := uid; canvasData := ∅; isLoading := false;
     hasLoadedFromFirebase := false |}.

Definition set_canvasData (c : gmap string CanvasDoc) (o : Storage) : Storage :=
  {| userId := userId o; canvasData := c; isLoading := isLoading o;
     hasLoadedFromFirebase := hasLoadedFromFirebase o |}.

Definition set_isLoading (b : bool) (o : Storage) : Storage :=
  {| userId := userId o; canvasData := canvasData o; isLoading := b;
     hasLoadedFromFirebase := hasLoadedFromFirebase o |}.

Definition set_hasLoadedFromFirebase (b : bool) (o : Storage) : Storage :=
  {| userId := userId o; canvasData := canvasData o; isLoading := isLoading o;
     hasLoadedFromFirebase := b |}.

Definition set_collection (c : gmap string CanvasDoc) (w : World) : World :=
  {| collection := c; faults := faults w; clock := clock w; calls := calls w;
     console := console w; downloads := downloads w |}.

Definition add_log (l : LogLevel) (m : string) (w : World) : World :=
  {| collection := collection w; faults := faults w; clock := clock w;
     calls := calls w; console := console w ++ [(l, m)];
     downloads := downloads w |}.

Definition add_download (d : ExportData) (w : World) : World :=
  {| collection := collection w; faults := faults w; clock := clock w;
     calls := calls w; console := console w; downloads := downloads w ++ [d] |}.

(** A round trip: it is recorded, time passes, and the schedule moves on. *)
Definition round_trip (c : RemoteCall) (o : Storage) (w : World) : World :=
  {| collection := collection w; faults := tail (faults w);
     clock := (clock w + 1)%N; calls := calls w ++ [(c, o)];
     console := console w; downloads := downloads w |}.

(** What the schedule holds for the round trip after [n] more: [Some m] if it
    is to reject with [Error m]. *)
Definition scheduled (n : nat) (w : World) : option string :=
  mjoin (faults w !! n).

Definition on_this (f : Storage -> Storage) (s : State) : State :=
  {| this := f (this s); world := world s |}.

Definition on_world (f : World -> World) (s : State) : State :=
  {| this := this s; world := f (world s) |}.

(* ===================================================================== *)
(** ** Async methods as state-passing computations that may throw *)
(* ===================================================================== *)

Inductive Outcome (A : Type) :=
| Returns (a : A)
| Throws (e : JsError).
Arguments Returns {A} a.
Arguments Throws {A} e.

(** An [async] method body: it runs in a state, settles (fulfilled or
    rejected) and leaves a state.  What it changed before throwing stays
    changed, as in JavaScript. *)
Definition M (A : Type) : Type := State -> Outcome A * State.

#[global] Instance M_ret : MRet M := fun A a s => (Returns a, s).

#[global] Instance M_bind : MBind M := fun A B k m s =>
  match m s with
  | (Returns a, s') => k a s'
  | (Throws e, s') => (Throws e, s')
  end.

Definition throw {A} (e : JsError) : M A := fun s => (Throws e, s).

(** [try { body } catch (error) { handler }] *)
Definition try_catch {A} (body : M A) (handler : JsError -> M A) : M A :=
  fun s =>
    match body s with
    | (Returns a, s') => (Returns a, s')
    | (Throws e, s') => handler e s'
    end.

(** [try { body } finally { final }] *)
Definition try_finally {A} (body : M A) (final : M unit) : M A :=
  fun s =>
    match body s with
    | (r, s') =>
        match final s' with
        | (Returns _, s'') => (r, s'')
        | (Throws e, s'') => (Throws e, s'')
        end
    end.

Definition get_this : M Storage := fun s => (Returns (this s), s).
Definition get_world : M World := fun s => (Returns (world s), s).
Definition update_this (f : Storage -> Storage) : M unit :=
  fun s => (Returns tt, on_this f s).
Definition update_world (f : World -> World) : M unit :=
  fun s => (Returns tt, on_world f s).

(** [new Date()] read as a number. *)
Definition Date_now : M N := w ← get_world; mret (clock w).

Definition console_log (m : string) : M unit := update_world (add_log LogInfo m).
Definition console_warn (m : string) : M unit := update_world (add_log LogWarn m).
Definition console_error (m : string) (e : JsError) : M unit :=
  update_world (add_log LogError (m +:+ " " +:+ message_of e)).

(* --------------------------------------------------------------------- *)
(** *** The RemoteStore adapter: the Firestore calls the class awaits *)
(* --------------------------------------------------------------------- *)

(** Awaiting one round trip: it either rejects, as the schedule says, or
    resolves. *)
Definition await (c : RemoteCall) : M unit :=
  fun s =>
    match scheduled 0 (world s) with
    | Some m => (Throws (Error m), on_world (round_trip c (this s)) s)
    | None => (Returns tt, on_world (round_trip c (this s)) s)
    end.

Definition setDoc (id : string) (d : CanvasDoc) : M unit :=
  await (SetDoc id);;
  update_world (fun w => set_collection (<[id := resolve (clock w) d]> (collection w)) w).

(** [getDoc]: [None] is a snapshot whose [exists()] is false. *)
Definition getDoc (id : string) : M (option CanvasDoc) :=
  await (GetDoc id);;
  w ← get_world;
  mret (collection w !! id).

Definition getDocs : M (gmap string CanvasDoc) :=
  await GetDocs;;
  w ← get_world;
  mret (collection w).

Definition deleteDoc (id : string) : M unit :=
  await (DeleteDoc id);;
  update_world (fun w => set_collection (delete id (collection w)) w).

Definition apply_op (now : N) (c : gmap string CanvasDoc) (op : BatchOp)
    : gmap string CanvasDoc :=
  match op with
  | BatchSet id d => <[id := resolve now d]> c
  | BatchDelete id => delete id c
  end.

(** [batch.commit()]: all queued operations or none. *)
Definition commit (batch : list BatchOp) : M unit :=
  await (BatchCommit (length batch));;
  update_world (fun w => set_collection (foldl (apply_op (clock w)) (collection w) batch) w).

(* ===================================================================== *)
(** ** AnnotationCodec: [canvasToSVG], [loadSVGToCanvas] *)
(* ===================================================================== *)

Section Codec.
Context {browser : Browser}.

Definition canvasToSVG (canvas : Canvas) : string :=
  let image :=
    El "image"
       [("width", Js.toString (width canvas));
        ("height", Js.toString (height canvas));
        ("href", toDataURL canvas)] [] in
  let svg :=
    El "svg"
       [("width", Js.toString (width canvas));
        ("height", Js.toString (height canvas));
        ("xmlns", "http://www.w3.org/2000/svg")] [image] in
  serializeToString svg.

(** The promise resolves once the image has been drawn and rejects when
    the envelope has no image or the image does not load. *)
Definition loadSVGToCanvas (canvas : Canvas) (svgData : string) : M Canvas :=
  match parseImageHref svgData with
  | Some href =>
      match loadImage href with
      | Some img => mret (drawImage canvas img)
      | None => throw (Error "image load error")
      end
  | None => throw (Error "No image found in SVG")
  end.

End Codec.

(* ===================================================================== *)
(** ** CanvasAnnotationStore: the methods of [FirebaseCanvasStorage] *)
(* ===================================================================== *)

(** [Object.assign(target, source)] on two caches: the source's entries
    overwrite the target's. *)
Definition Object_assign (target source : gmap string CanvasDoc)
    : gmap string CanvasDoc :=
  map_fold (fun id d acc => <[id := d]> acc) target source.

(** How a promise built with [new Promise((resolve, reject) => ...)] settles. *)
Inductive Settled (A : Type) :=
| Resolve (a : A)
| Reject (e : JsError).
Arguments Resolve {A} a.
Arguments Reject {A} e.

Definition promise {A} (executor : M (Settled A)) : M A :=
  r ← executor;
  match r with
  | Resolve a => mret a
  | Reject e => throw e
  end.

Section Store.
Context {browser : Browser}.

(** The object literal [canvasDoc] of [saveCanvasAsSVG]. *)
Definition canvasDoc (canvas : Canvas) (questionId partId : Z)
    (sectionId : option Z) (svgData fileHash : string) : CanvasDoc :=
  {| svg := svgData;
     timestamp := ServerTimestampSentinel;
     dimensions := (width canvas, height canvas);
     fileId := fileHash;
     doc_questionId := Js.toString questionId;
     doc_partId := Js.toString partId;
     doc_sectionId :=
       (let s := Js.toString <$> sectionId in
        if Js.truthy s then s else None);
     importedAt := None |}.

Definition saveCanvasAsSVG (canvas : Canvas) (questionId partId : Z)
    (sectionId : option Z) (filePath : option string) : M (option string) :=
  o ← get_this;
  if negb (Js.truthy (userId o)) then
    console_warn "No user ID available for saving canvas";;
    mret None
  else
    try_catch
      (let key := getCanvasKey questionId partId sectionId in
       let svgData := canvasToSVG canvas in
       let fileHash := getFileHash filePath in
       let canvasDoc :=
         canvasDoc canvas questionId partId sectionId svgData fileHash in
       setDoc (fileHash +:+ "_" +:+ key) canvasDoc;;
       now ← Date_now;
       update_this (fun o =>
         set_canvasData
           (<[fileHash +:+ "_" +:+ key := with_timestamp canvasDoc (LocalISO now)]>
              (canvasData o)) o);;
       console_log ("Saved canvas " +:+ key +:+ " for file " +:+ fileHash
                      +:+ " to Firebase");;
       mret (Some svgData))
      (fun error =>
         console_error "Error saving canvas to Firebase:" error;;
         mret None).

(** The surface is mutated in place by the source; here the surface as it
    is after the call is returned next to the boolean. *)
Definition loadCanvasFromSVG (canvas : Canvas) (questionId partId : Z)
    (sectionId : option Z) (filePath : option string) : M (bool * Canvas) :=
  o ← get_this;
  if negb (Js.truthy (userId o)) then
    console_warn "No user ID available for loading canvas";;
    mret (false, canvas)
  else
    try_catch
      (let key := getCanvasKey questionId partId sectionId in
       let fileHash := getFileHash filePath in
       let fullKey := fileHash +:+ "_" +:+ key in
       o ← get_this;
       canvasDoc ←
         match canvasData o !! fullKey with
         | Some d => mret (Some d)
         | None =>
             docSnap ← getDoc fullKey;
             match docSnap with
             | Some d =>
                 update_this (fun o =>
                   set_canvasData (<[fullKey := d]> (canvasData o)) o);;
                 mret (Some d)
             | None => mret None
             end
         end;
       match canvasDoc with
       | Some d =>
           if Js.truthy (Some (svg d)) then
             canvas' ← loadSVGToCanvas canvas (svg d);
             mret (true, canvas')
           else mret (false, canvas)
       | None => mret (false, canvas)
       end)
      (fun error =>
         console_error "Error loading canvas from Firebase:" error;;
         mret (false, canvas)).

Definition loadAllCanvasesForFile (filePath : option string) : M unit :=
  o ← get_this;
  if negb (Js.truthy (userId o)) then
    console_warn "No user ID available for loading canvases"
  else
    try_finally
      (try_catch
         (update_this (set_isLoading true);;
          let fileHash := getFileHash filePath in
          snapshot ← getDocs;
          update_this (fun o =>
            set_canvasData
              (map_fold
                 (fun id data acc =>
                    if String.eqb (fileId data) fileHash
                    then <[id := data]> acc else acc)
                 (canvasData o) snapshot) o);;
          update_this (set_hasLoadedFromFirebase true);;
          console_log ("Loaded " +:+ pretty (size snapshot)
                         +:+ " canvases from Firebase for file " +:+ fileHash))
         (fun error =>
            console_error "Error loading canvases from Firebase:" error))
      (update_this (set_isLoading false)).

Definition exportAllCanvases : M nat :=
  try_catch
    (snapshot ← getDocs;
     o ← get_this;
     now ← Date_now;
     let exportData :=
       {| exp_userId := userId o;
          exp_timestamp := Some now;
          exp_version := Some "2.0";
          exp_source := Some "firebase";
          canvases :=
            Some (map_fold (fun id d acc => <[id := d]> acc) ∅ snapshot) |} in
     update_world (add_download exportData);;
     mret (size snapshot))
    (fun error =>
       console_error "Export failed:" error;;
       throw error).

(** [JSON.parse(e.target.result)]; [None] is [null]. *)
Definition JSON_parse (text : Json) : M (option ExportData) :=
  match text with
  | SyntaxError m => throw (Error m)
  | JsonNull => mret None
  | JsonObject data => mret (Some data)
  end.

(** [data.canvases]: reading a property of [null] throws a TypeError. *)
Definition get_canvases (data : option ExportData)
    : M (option (gmap string CanvasDoc)) :=
  match data with
  | Some d => mret (canvases d)
  | None =>
      throw (Error "Cannot read properties of null (reading 'canvases')")
  end.

Definition importCanvases (file : File) : M nat :=
  promise
    match file with
    | Unreadable => mret (Reject (Error "Failed to read file"))
    | Readable text =>
        try_catch
          (data ← JSON_parse text;
           cs ← get_canvases data;
           match cs with
           | None => mret (Reject (Error "Invalid canvas data format"))
           | Some cs =>
               let '(batch, count) :=
                 foldl
                   (fun '(batch, count) '(key, canvasData) =>
                      (batch ++
                         [BatchSet key
                            (with_importedAt
                               (with_timestamp canvasData ServerTimestampSentinel)
                               ServerTimestampSentinel)],
                       S count))
                   ([], O) (map_to_list cs) in
               commit batch;;
               update_this (fun o =>
                 set_canvasData (Object_assign (canvasData o) cs) o);;
               mret (Resolve count)
           end)
          (fun error =>
             mret (Reject (Error ("Failed to import canvas data: "
                                    +:+ message_of error))))
    end.

Definition clearAllCanvases : M unit :=
  try_catch
    (snapshot ← getDocs;
     let batch := (fun '(id, _) => BatchDelete id) <$> map_to_list snapshot in
     commit batch;;
     update_this (set_canvasData ∅);;
     console_log "All canvases cleared from Firebase")
    (fun error =>
       console_error "Error clearing canvases:" error;;
       throw error).

Definition deleteCanvas (questionId partId : Z) (sectionId : option Z)
    (filePath : option string) : M unit :=
  try_catch
    (let key := getCanvasKey questionId partId sectionId in
     let fileHash := getFileHash filePath in
     let fullKey := fileHash +:+ "_" +:+ key in
     deleteDoc fullKey;;
     update_this (fun o => set_canvasData (delete fullKey (canvasData o)) o);;
     console_log ("Deleted canvas " +:+ fullKey +:+ " from Firebase"))
    (fun error =>
       console_error "Error deleting canvas:" error;;
       throw error).

End Store.

(** The read-only accessors. *)
Definition getAllCanvasKeys (o : Storage) : list string :=
  (map_to_list (canvasData o)).*1.

Definition getCanvasCount (o : Storage) : nat :=
  length (getAllCanvasKeys o).

Definition isLoadingFromFirebase (o : Storage) : bool := isLoading o.

Definition hasLoadedData (o : Storage) : bool := hasLoadedFromFirebase o.

(* ===================================================================== *)
(** ** SectionNavigator: the carousel of [QuizApp] *)
(* ===================================================================== *)

(** A section as the parser delivers it: a title and its questions, each a
    question id with its part ids. *)
Record ParsedSection := {
  title : string;
  questions : list (Z * list Z)
}.

(** The fields of [QuizApp] the carousel reads and writes.  [getSections]
    is what [this.latexParser.getSections()] returns for the loaded
    document; [timers] lists the sections whose canvases [setTimeout] has
    been asked to initialise. *)
Record QuizApp := {
  currentSectionIndex : Z;
  getSections : list ParsedSection;
  timers : list Z
}.

Definition sectionCount (app : QuizApp) : Z := Z.of_nat (length (getSections app)).

Definition showSection (index : Z) (app : QuizApp) : QuizApp :=
  let sections := getSections app in
  if (index <? 0) || (index >=? Z.of_nat (length sections)) then app
  else
    {| currentSectionIndex := index;
       getSections := getSections app;
       timers := timers app ++ [index] |}.

Definition previousSection (app : QuizApp) : QuizApp :=
  if currentSectionIndex app >? 0
  then showSection (currentSectionIndex app - 1) app
  else app.

Definition nextSection (app : QuizApp) : QuizApp :=
  let sections := getSections app in
  if currentSectionIndex app <? Z.of_nat (length sections) - 1
  then showSection (currentSectionIndex app + 1) app
  else app.

(** The requests the user interface can make: a tab click, the previous and
    next buttons (or the arrow keys). *)
Inductive Transition :=
| GoTo (i : Z)
| Previous
| Next.

Definition step (app : QuizApp) (t : Transition) : QuizApp :=
  match t with
  | GoTo i => showSection i app
  | Previous => previousSection app
  | Next => nextSection app
  end.

Definition run (app : QuizApp) (ts : list Transition) : QuizApp :=
  foldl step app ts.

(** [new QuizApp()] before any document is loaded. *)
Definition new_QuizApp : QuizApp :=
  {| currentSectionIndex := 0; getSections := []; timers := [] |}.

(** A document with the given sections is rendered: the parser now holds
    its sections, the canvases of section 0 are scheduled, and the method
    ends with [showSection(0)]. *)
Definition renderSectionCarousel (sections : list ParsedSection)
    (app : QuizApp) : QuizApp :=
  showSection 0
    {| currentSectionIndex := currentSectionIndex app;
       getSections := sections;
       timers := timers app ++ [0] |}.

(* ===================================================================== *)
(** ** A stand-in browser, to run the methods on concrete inputs *)
(* ===================================================================== *)

(** Not a real digest or codec: the bytes are passed through, the vector
    image is the data URL itself, and every non-empty image loads. *)
Definition stand_in : Browser :=
  {| digest := fun bytes => bytes;
     toDataURL := pixels;
     serializeToString := fun node =>
       match node with
       | El _ _ (El _ attrs _ :: _) =>
           match attrs with
           | [_; _; (_, href)] => "<svg>" +:+ href
           | _ => "<svg>"
           end
       | El _ _ [] => "<svg>"
       end;
     parseImageHref := fun text =>
       match text with
       | String "<" (String "s" (String "v" (String "g" (String ">" href)))) =>
           match href with EmptyString => None | _ => Some href end
       | _ => None
       end;
     loadImage := fun href => Some href;
     drawImage := fun canvas img =>
       {| width := width canvas; height := height canvas; pixels := img |} |}.

Arguments Js.truthy : simpl never.
Arguments getCanvasKey : simpl never.
Arguments getFileHash : simpl never.
Arguments canvasToSVG : simpl never.

(** A world with an empty collection in which every call succeeds, and one
    whose next call is rejected. *)
Definition quiet : World :=
  {| collection := ∅; faults := []; clock := 0; calls := []; console := [];
     downloads := [] |}.

Definition failing (m : string) : World :=
  {| collection := ∅; faults := [Some m]; clock := 0; calls := [];
     console := []; downloads := [] |}.

Definition fresh (uid : option string) (w : World) : State :=
  {| this := constructor uid; world := w |}.

Definition sketch : Canvas :=
  {| width := 400; height := 300; pixels := "data:image/png;base64,iVBORw0KGgo" |}.




(** The key of question 1, part 1 in section 0 of ["doc.tex"]. *)
Definition sketch_key : string :=
  fullKey (getFileHash (browser := stand_in) (Some "doc.tex")) 1 1 (Some 0).

(** The record a save of [sketch] caches under that key, and a record for
    the same place that carries no image, as an imported file can hold. *)
Definition sketch_record : CanvasDoc :=
  with_timestamp
    (canvasDoc sketch 1 1 (Some 0) (canvasToSVG (browser := stand_in) sketch)
       (getFileHash (browser := stand_in) (Some "doc.tex")))
    (LocalISO 1).

Definition imageless_record : CanvasDoc :=
  {| svg := EmptyString; timestamp := LocalISO 1; dimensions := (400, 300);
     fileId := getFileHash (browser := stand_in) (Some "doc.tex");
     doc_questionId := "1"; doc_partId := "1"; doc_sectionId := Some "0";
     importedAt := None |}.

(** Two parsed export files: one with two entries but no [canvases]
    mapping, one whose mapping has the keys a and b. *)
Definition without_canvases : ExportData :=
  {| exp_userId := Some "u"; exp_timestamp := None; exp_version := Some "2.0";
     exp_source := None; canvases := None |}.

Definition with_a_and_b : ExportData :=
  {| exp_userId := Some "u"; exp_timestamp := Some 7%N; exp_version := Some "2.0";
     exp_source := Some "firebase";
     canvases := Some {[ "a" := sketch_record; "b" := imageless_record ]} |}.

(** A parsed export file whose only entry, under [sketch_key], has no image. *)
Definition imageless_file : ExportData :=
  {| exp_userId := Some "u"; exp_timestamp := Some 7%N; exp_version := Some "2.0";
     exp_source := Some "firebase";
     canvases := Some {[ sketch_key := imageless_record ]} |}.

(** A signed-in store whose cache holds one record under [sketch_key]. *)
Definition caching (d : CanvasDoc) (w : World) : State :=
  {| this := set_canvasData {[ sketch_key := d ]} (constructor (Some "u"));
     world := w |}.

(** A document of three sections. *)
Definition three_sections : list ParsedSection :=
  [ {| title := "Algebra"; questions := [(1, [1; 2])] |};
    {| title := "Geometry"; questions := [(1, [1]); (2, [1])] |};
    {| title := "Calculus"; questions := [] |} ].

(** The characters [toString(16)] produces. *)
Definition is_hex (c : ascii) : bool :=
  match c with
  | "0" | "1" | "2" | "3" | "4" | "5" | "6" | "7" | "8" | "9"
  | "a" | "b" | "c" | "d" | "e" | "f" => true
  | _ => false
  end%char.

Fixpoint all_chars (ok : ascii -> bool) (s : string) : bool :=
  match s with
  | EmptyString => true
  | String c s' => ok c && all_chars ok s'
  end.

(* ===================================================================== *)
(** ** The carousel controls *)
(* ===================================================================== *)

(** What [updateCarouselControls] writes to the page, the three elements
    being present: the two buttons' [disabled] and the counter's text. *)
Record Controls := {
  prevDisabled : bool;
  nextDisabled : bool;
  counterText : string
}.

Definition updateCarouselControls (app : QuizApp) : Controls :=
  let sections := getSections app in
  {| prevDisabled := currentSectionIndex app =? 0;
     nextDisabled := currentSectionIndex app =? Z.of_nat (length sections) - 1;
     counterText :=
       Js.toString (currentSectionIndex app + 1) +:+ " / "
         +:+ Js.toString (Z.of_nat (length sections)) |}.

(* ===================================================================== *)
(** ** FirebaseAuth (firebase-auth.js) *)
(* ===================================================================== *)

Module Auth.

(** Emails, passwords and names are JavaScript strings taken as their
    UTF-16 code units, which is what the regular expression, [trim] and
    [length] work on. *)
Abbreviation ustring := (list N).

(** [\s] in a regular expression, and what [trim] strips: the WhiteSpace
    and LineTerminator code points. *)
Definition is_white (c : N) : bool :=
  match c with
  | 9 | 10 | 11 | 12 | 13 | 32 | 160 | 5760 | 8232 | 8233 | 8239 | 8287
  | 12288 | 65279 => true
  | _ => (8192 <=? c) && (c <=? 8202)
  end%N.

Fixpoint trimStart (s : ustring) : ustring :=
  match s with
  | c :: s' => if is_white c then trimStart s' else s
  | [] => []
  end.

Definition trimEnd (s : ustring) : ustring := rev (trimStart (rev s)).

Definition trim (s : ustring) : ustring := trimEnd (trimStart s).

(** Regular expressions over code units, matched by derivatives. *)
Inductive Regex :=
| Fail
| Eps
| Class (p : N -> bool)
| Seq (r1 r2 : Regex)
| Alt (r1 r2 : Regex)
| Star (r : Regex).

(** [r+] *)
Definition Plus (r : Regex) : Regex := Seq r (Star r).

Fixpoint nullable (r : Regex) : bool :=
  match r with
  | Fail => false
  | Eps => true
  | Class _ => false
  | Seq r1 r2 => nullable r1 && nullable r2
  | Alt r1 r2 => nullable r1 || nullable r2
  | Star _ => true
  end.

Fixpoint deriv (c : N) (r : Regex) : Regex :=
  match r with
  | Fail => Fail
  | Eps => Fail
  | Class p => if p c then Eps else Fail
  | Seq r1 r2 =>
      if nullable r1 then Alt (Seq (deriv c r1) r2) (deriv c r2)
      else Seq (deriv c r1) r2
  | Alt r1 r2 => Alt (deriv c r1) (deriv c r2)
  | Star r' => Seq (deriv c r') (Star r')
  end.

(** [/^r$/.test(s)] *)
Fixpoint test (r : Regex) (s : ustring) : bool :=
  match s with
  | [] => nullable r
  | c :: s' => test (deriv c r) s'
  end.

(** The strings a regular expression denotes. *)
Inductive Matches : Regex -> ustring -> Prop :=
| MEps : Matches Eps []
| MClass p c : p c = true -> Matches (Class p) [c]
| MSeq r1 r2 s1 s2 :
    Matches r1 s1 -> Matches r2 s2 -> Matches (Seq r1 r2) (s1 ++ s2)
| MAltL r1 r2 s : Matches r1 s -> Matches (Alt r1 r2) s
| MAltR r1 r2 s : Matches r2 s -> Matches (Alt r1 r2) s
| MStar0 r : Matches (Star r) []
| MStarS r s1 s2 :
    Matches r s1 -> Matches (Star r) s2 -> Matches (Star r) (s1 ++ s2).

(** [[^\s@]] *)
Definition not_space_or_at (c : N) : bool := negb (is_white c || (c =? 64)%N).

(** [/^[^\s@]+@[^\s@]+\.[^\s@]+$/] *)
Definition emailRegex : Regex :=
  Seq (Plus (Class not_space_or_at))
    (Seq (Class (fun c => c =? 64)%N)
       (Seq (Plus (Class not_space_or_at))
          (Seq (Class (fun c => c =? 46)%N)
             (Plus (Class not_space_or_at))))).

Definition isValidEmail (email : ustring) : bool := test emailRegex email.

(** What a [catch] receives: a Firebase error has a [code], an [Error] made
    by [new Error(message)] has none. *)
Record Thrown := {
  code : option string;
  message : string
}.

(** [new Error(m)] *)
Definition plain (m : string) : Thrown := {| code := None; message := m |}.

(** The calls made to the Firebase Auth SDK. *)
Inductive Request :=
| SignIn (email password : ustring)
| CreateUser (email password : ustring)
| UpdateProfile (displayName : ustring)
| SendPasswordResetEmail (email : ustring)
| SignOut.

(** A callback registered with [onAuthStateChange]: one passed in by other
    code, which does not touch the listener list, or the closure that
    [waitForAuth] registers, which unsubscribes itself and resolves its
    promise.  The number stands for the identity of the function object. *)
Inductive Callback :=
| External (id : nat)
| Waiter (id : nat).

#[global] Instance Callback_eq_dec : EqDecision Callback.
Proof. solve_decision. Defined.

(** How the promise of [waitForAuth] stands when the call returns. *)
Inductive Wait (User : Type) :=
| Now (user : User)
| Later (waiter : nat).
Arguments Now {User} user.
Arguments Later {User} waiter.

(** What the SDK answers to a request: it rejects, or it fulfils, possibly
    after the auth state listener has been run with a new user. *)
Inductive Reply (User : Type) :=
| Rejected (e : Thrown)
| Fulfilled (event : option (option User)).
Arguments Rejected {User} e.
Arguments Fulfilled {User} event.

Section WithUser.
Context {User : Type}.

(** The instance: its two fields, then what the callbacks have done
    ([resolved] promises of waiters, [called] external callbacks), the
    number of closures made so far, and the SDK around it. *)
Record FirebaseAuth := {
  currentUser : option User;
  authStateListeners : list Callback;
  resolved : list (nat * option User);
  called : list (nat * option User);
  closures : nat;
  replies : list (Reply User);
  requests : list Request;
  console : list string
}.

Definition set_currentUser (u : option User) (a : FirebaseAuth) : FirebaseAuth :=
  {| currentUser := u; authStateListeners := authStateListeners a;
     resolved := resolved a; called := called a; closures := closures a;
     replies := replies a; requests := requests a; console := console a |}.

Definition set_listeners (l : list Callback) (a : FirebaseAuth) : FirebaseAuth :=
  {| currentUser := currentUser a; authStateListeners := l;
     resolved := resolved a; called := called a; closures := closures a;
     replies := replies a; requests := requests a; console := console a |}.

Definition add_resolved (w : nat) (u : option User) (a : FirebaseAuth) : FirebaseAuth :=
  {| currentUser := currentUser a; authStateListeners := authStateListeners a;
     resolved := resolved a ++ [(w, u)]; called := called a;
     closures := closures a; replies := replies a; requests := requests a;
     console := console a |}.

Definition add_called (i : nat) (u : option User) (a : FirebaseAuth) : FirebaseAuth :=
  {| currentUser := currentUser a; authStateListeners := authStateListeners a;
     resolved := resolved a; called := called a ++ [(i, u)];
     closures := closures a; replies := replies a; requests := requests a;
     console := console a |}.

Definition new_closure (a : FirebaseAuth) : FirebaseAuth :=
  {| currentUser := currentUser a; authStateListeners := authStateListeners a;
     resolved := resolved a; called := called a; closures := S (closures a);
     replies := replies a; requests := requests a; console := console a |}.

Definition sent (r : Request) (a : FirebaseAuth) : FirebaseAuth :=
  {| currentUser := currentUser a; authStateListeners := authStateListeners a;
     resolved := resolved a; called := called a; closures := closures a;
     replies := tail (replies a); requests := requests a ++ [r];
     console := console a |}.

Definition logged (m : string) (a : FirebaseAuth) : FirebaseAuth :=
  {| currentUser := currentUser a; authStateListeners := authStateListeners a;
     resolved := resolved a; called := called a; closures := closures a;
     replies := replies a; requests := requests a; console := console a ++ [m] |}.

(** [new FirebaseAuth()] *)
Definition constructor (sdk : list (Reply User)) : FirebaseAuth :=
  {| currentUser := None; authStateListeners := []; resolved := []; called := [];
     closures := O; replies := sdk; requests := []; console := [] |}.

(** [const index = l.indexOf(callback); if (index > -1) l.splice(index, 1)] *)
Fixpoint remove_first (callback : Callback) (l : list Callback) : list Callback :=
  match l with
  | [] => []
  | x :: l' => if decide (x = callback) then l' else x :: remove_first callback l'
  end.

(** The function [onAuthStateChange] returns. *)
Definition unsubscribe (callback : Callback) (a : FirebaseAuth) : FirebaseAuth :=
  set_listeners (remove_first callback (authStateListeners a)) a.

Definition onAuthStateChange (callback : Callback) (a : FirebaseAuth) : FirebaseAuth :=
  set_listeners (authStateListeners a ++ [callback]) a.

(** Calling a listener. *)
Definition invoke (callback : Callback) (user : option User) (a : FirebaseAuth)
    : FirebaseAuth :=
  match callback with
  | External i => add_called i user a
  | Waiter w => add_resolved w user (unsubscribe callback a)
  end.

(** [Array.prototype.forEach]: the length is read once, then index after
    index is visited in the array as it is by then, an index past its end
    being skipped. *)
Fixpoint forEach (steps k : nat) (user : option User) (a : FirebaseAuth)
    : FirebaseAuth :=
  match steps with
  | O => a
  | S steps' =>
      match authStateListeners a !! k with
      | Some callback => forEach steps' (S k) user (invoke callback user a)
      | None => forEach steps' (S k) user a
      end
  end.

(** The callback given to the SDK's [onAuthStateChanged], run with the user
    object it builds ([None] when signed out). *)
Definition authStateChanged (user : option User) (a : FirebaseAuth) : FirebaseAuth :=
  let a' := set_currentUser user a in
  forEach (length (authStateListeners a')) 0 user a'.

Definition waitForAuth (a : FirebaseAuth) : Wait User * FirebaseAuth :=
  match currentUser a with
  | Some user => (Now user, a)
  | None =>
      let w := closures a in
      (Later w, onAuthStateChange (Waiter w) (new_closure a))
  end.

(** An async method of the class. *)
Definition A (X : Type) : Type := FirebaseAuth -> (Thrown + X) * FirebaseAuth.

#[global] Instance A_ret : MRet A := fun X x a => (inr x, a).

#[global] Instance A_bind : MBind A := fun X Y k m a =>
  match m a with
  | (inr x, a') => k x a'
  | (inl e, a') => (inl e, a')
  end.

Definition raise {X} (e : Thrown) : A X := fun a => (inl e, a).

Definition catch {X} (body : A X) (handler : Thrown -> A X) : A X :=
  fun a =>
    match body a with
    | (inr x, a') => (inr x, a')
    | (inl e, a') => handler e a'
    end.

Definition console_error (m : string) : A unit := fun a => (inr tt, logged m a).

(** [this.currentUser] read and written inside a method. *)
Definition get_currentUser : A (option User) := fun a => (inr (currentUser a), a).

Definition put_currentUser (u : option User) : A unit :=
  fun a => (inr tt, set_currentUser u a).

(** Awaiting a call to the SDK. *)
Definition await (r : Request) : A unit :=
  fun a =>
    match replies a with
    | Rejected e :: _ => (inl e, sent r a)
    | Fulfilled (Some user) :: _ => (inr tt, authStateChanged user (sent r a))
    | _ => (inr tt, sent r a)
    end.

(** [!s] for a string. *)
Definition empty (s : ustring) : bool :=
  match s with [] => true | _ => false end.

(** [error.message || fallback] *)
Definition message_or (error : Thrown) (fallback : string) : string :=
  match message error with
  | EmptyString => fallback
  | m => m
  end.

(** [error.code === c] *)
Definition has_code (error : Thrown) (c : string) : bool :=
  match code error with
  | Some c' => String.eqb c' c
  | None => false
  end.

Definition login (email password : ustring) : A (option User) :=
  catch
    (if empty email || empty password then
       raise (plain "Email and password are required")
     else if negb (isValidEmail email) then
       raise (plain "Invalid email format")
     else
       await (SignIn (trim email) password);;
       get_currentUser)
    (fun error =>
       console_error "Login error:";;
       if has_code error "auth/user-not-found" then
         raise (plain "No account found with this email address")
       else if has_code error "auth/wrong-password" then
         raise (plain "Incorrect password")
       else if has_code error "auth/too-many-requests" then
         raise (plain "Too many failed attempts. Please try again later")
       else if has_code error "auth/user-disabled" then
         raise (plain "This account has been disabled")
       else if has_code error "auth/invalid-email" then
         raise (plain "Invalid email address")
       else
         raise (plain (message_or error "Login failed. Please try again."))).

Definition register (email password : ustring) (displayName : option ustring)
    : A (option User) :=
  catch
    (if empty email || empty password then
       raise (plain "Email and password are required")
     else if negb (isValidEmail email) then
       raise (plain "Invalid email format")
     else if (length password <? 6)%nat then
       raise (plain "Password must be at least 6 characters long")
     else
       await (CreateUser (trim email) password);;
       match displayName with
       | Some (c :: name) => await (UpdateProfile (c :: name))
       | _ => mret tt
       end;;
       get_currentUser)
    (fun error =>
       console_error "Registration error:";;
       if has_code error "auth/email-already-in-use" then
         raise (plain "An account with this email already exists")
       else if has_code error "auth/invalid-email" then
         raise (plain "Invalid email address")
       else if has_code error "auth/weak-password" then
         raise (plain "Password is too weak. Please choose a stronger password")
       else
         raise (plain (message_or error "Registration failed. Please try again."))).

Definition logout : A unit :=
  catch
    (await SignOut;;
     put_currentUser None)
    (fun error =>
       console_error "Logout error:";;
       raise (plain "Failed to sign out. Please try again.")).

Definition resetPassword (email : ustring) : A bool :=
  catch
    (if empty email || negb (isValidEmail email) then
       raise (plain "Please enter a valid email address")
     else
       await (SendPasswordResetEmail (trim email));;
       mret true)
    (fun error =>
       console_error "Password reset error:";;
       if has_code error "auth/user-not-found" then
         raise (plain "No account found with this email address")
       else if has_code error "auth/invalid-email" then
         raise (plain "Invalid email address")
       else
         raise (plain "Failed to send password reset email. Please try again.")).

End WithUser.

Arguments FirebaseAuth User : clear implicits.
Arguments A User X : clear implicits.

End Auth.

(* ===================================================================== *)
(** * Properties *)
(* ===================================================================== *)

(** ** Strings *)

Lemma append_cons (a : ascii) (s t : string) :
  String a s +:+ t = String a (s +:+ t).
Proof. reflexivity. Qed.

Lemma append_empty (t : string) : EmptyString +:+ t = t.
Proof. reflexivity. Qed.

Lemma mentions_append (c : ascii) (s t : string) :
  Js.mentions c (s +:+ t) = Js.mentions c s || Js.mentions c t.
Proof.
  induction s as [|a s IH]; [reflexivity|].
  rewrite append_cons. simpl. destruct (Ascii.eqb a c); [reflexivity|exact IH].
Qed.

Lemma pretty_N_char_no_underscore (d : N) :
  Ascii.eqb (pretty_N_char d) "_" = false.
Proof. unfold pretty_N_char. repeat case_match; reflexivity. Qed.

Lemma pretty_N_go_no_underscore (x : N) (s : string) :
  Js.mentions "_" s = false -> Js.mentions "_" (pretty_N_go x s) = false.
Proof.
  revert s. induction (N.lt_wf_0 x) as [x _ IH]; intros s Hs.
  assert (x = 0 \/ 0 < x)%N as [->|Hpos] by lia.
  - by rewrite pretty_N_go_0.
  - rewrite pretty_N_go_step by done. apply IH.
    + by apply N.div_lt.
    + simpl. by rewrite pretty_N_char_no_underscore.
Qed.

Lemma pretty_N_no_underscore (x : N) : Js.mentions "_" (pretty x) = false.
Proof.
  unfold pretty, pretty_N. case_decide; [reflexivity|].
  by apply pretty_N_go_no_underscore.
Qed.

(** A rendered integer never contains the separator of the key format. *)
Lemma toString_no_underscore (z : Z) : Js.mentions "_" (Js.toString z) = false.
Proof.
  unfold Js.toString, pretty, pretty_Z. destruct z as [|x|x].
  - reflexivity.
  - apply (pretty_N_no_underscore (N.pos x)).
  - rewrite mentions_append. simpl. apply (pretty_N_no_underscore (N.pos x)).
Qed.

Lemma toString_inj (x y : Z) : Js.toString x = Js.toString y -> x = y.
Proof. apply pretty_Z_inj. Qed.

(** Two texts cut at their first underscore agree piece by piece. *)
Lemma split_at_underscore (a b x y : string) :
  Js.mentions "_" a = false -> Js.mentions "_" b = false ->
  a +:+ String "_" x = b +:+ String "_" y -> a = b /\ x = y.
Proof.
  revert b. induction a as [|c a IH]; intros [|d b] Ha Hb Heq.
  - rewrite !append_empty in Heq. by simplify_eq.
  - rewrite append_empty, append_cons in Heq. simplify_eq; try discriminate Hb.
  - rewrite append_empty, append_cons in Heq. simplify_eq; try discriminate Ha.
  - rewrite !append_cons in Heq. injection Heq as -> Heq.
    simpl in Ha, Hb. destruct (Ascii.eqb d "_"); [discriminate|].
    destruct (IH b Ha Hb Heq) as [-> ->]. done.
Qed.

(** ** KeyDeriver *)

Lemma q_p_inj (q p q' p' : Z) :
  Js.toString q +:+ "_p" +:+ Js.toString p = Js.toString q' +:+ "_p" +:+ Js.toString p' ->
  q = q' /\ p = p'.
Proof.
  intros Heq.
  apply split_at_underscore in Heq as [Hq Hp]; try apply toString_no_underscore.
  injection Hp as Hp. split; by apply toString_inj.
Qed.

Lemma getCanvasKey_inj (q p q' p' : Z) (s s' : option Z) :
  getCanvasKey q p s = getCanvasKey q' p' s' -> s = s' /\ q = q' /\ p = p'.
Proof.
  unfold getCanvasKey. destruct s as [s|], s' as [s'|]; intros Heq.
  - rewrite !append_cons, !append_empty in Heq. injection Heq as Heq.
    apply split_at_underscore in Heq as [Hs Hk];
      try apply toString_no_underscore.
    injection Hk as Hk. apply toString_inj in Hs as ->.
    by destruct (q_p_inj q p q' p' Hk) as [-> ->].
  - rewrite !append_cons in Heq. discriminate.
  - rewrite !append_cons in Heq. discriminate.
  - rewrite !append_cons, !append_empty in Heq. injection Heq as Heq.
    by destruct (q_p_inj q p q' p' Heq) as [-> ->].
Qed.

(** C1: the composite key is the stated concatenation, a function of the
    document identifier and the three identifiers alone, and under one
    document distinct (section, question, part) tuples of integer identifiers
    get distinct keys. *)
Theorem composite_key_unique :
  (forall (d : string) (q p sec : Z),
      fullKey d q p (Some sec) =
      d +:+ "_" +:+ ("section_" +:+ Js.toString sec +:+ "_q" +:+ Js.toString q
                       +:+ "_p" +:+ Js.toString p)) /\
  (forall (d : string) (q p : Z),
      fullKey d q p None =
      d +:+ "_" +:+ ("q" +:+ Js.toString q +:+ "_p" +:+ Js.toString p)) /\
  (forall (d : string) (q p q' p' : Z) (s s' : option Z),
      (s, q, p) <> (s', q', p') -> fullKey d q p s <> fullKey d q' p' s').
Proof.
  split; [reflexivity|]. split; [reflexivity|].
  intros d q p q' p' s s' Hne Heq. apply Hne.
  unfold fullKey in Heq.
  apply (inj (String.app d)) in Heq.
  apply (inj (String.app "_")) in Heq.
  by destruct (getCanvasKey_inj _ _ _ _ _ _ Heq) as (-> & -> & ->).
Qed.

Lemma composite_key_unique_witness :
  fullKey "doc" 1 2 (Some 0) <> fullKey "doc" 12 0 None /\
  fullKey "doc" 1 12 None <> fullKey "doc" 11 2 None.
Proof.
  split; apply composite_key_unique; intros [=].
Defined.

(** C10: an empty path and an absent path are the same document: both are
    hashed as the sentinel ["default"]. *)
Theorem empty_path_is_default {browser : Browser} :
  getFileHash (Some EmptyString) = getFileHash None /\
  getFileHash None = hashString "default" /\
  (forall canvas q p sec,
      saveCanvasAsSVG canvas q p sec (Some EmptyString) =
      saveCanvasAsSVG canvas q p sec None).
Proof. repeat split. Qed.

(** ** The fault schedule and the monad *)

Lemma scheduled_round_trip (n : nat) (c : RemoteCall) (o : Storage) (w : World) :
  scheduled n (round_trip c o w) = scheduled (S n) w.
Proof. unfold scheduled. simpl. by destruct (faults w). Qed.

Lemma await_resolves (c : RemoteCall) (s : State) :
  scheduled 0 (world s) = None ->
  await c s = (Returns tt, on_world (round_trip c (this s)) s).
Proof. intros Hok. unfold await. by rewrite Hok. Qed.

Lemma await_rejects (c : RemoteCall) (s : State) (m : string) :
  scheduled 0 (world s) = Some m ->
  await c s = (Throws (Error m), on_world (round_trip c (this s)) s).
Proof. intros Hko. unfold await. by rewrite Hko. Qed.

(** Unfolds the plumbing of a method body down to its [await]s. *)
Ltac unfold_method :=
  unfold promise, try_finally, try_catch, setDoc, getDoc, getDocs, deleteDoc,
    commit, Date_now, console_log, console_warn, console_error, update_this,
    update_world, get_this, get_world, throw, mbind, M_bind, mret, M_ret;
  simpl.

(** ** save *)

Lemma pretty_N_go_nonempty (x : N) (s : string) :
  s <> EmptyString -> pretty_N_go x s <> EmptyString.
Proof.
  revert s. induction (N.lt_wf_0 x) as [x _ IH]; intros s Hs.
  assert (x = 0 \/ 0 < x)%N as [->|Hpos] by lia.
  - by rewrite pretty_N_go_0.
  - rewrite pretty_N_go_step by done. apply IH; [by apply N.div_lt|done].
Qed.

(** A rendered integer is never the empty string, so it is truthy. *)
Lemma toString_truthy (z : Z) : Js.truthy (Some (Js.toString z)) = true.
Proof.
  assert (forall x : positive, pretty (N.pos x) <> EmptyString) as Hpos.
  { intros x. unfold pretty, pretty_N. case_decide; [done|].
    rewrite pretty_N_go_step by lia. by apply pretty_N_go_nonempty. }
  unfold Js.toString, pretty, pretty_Z, Js.truthy. destruct z as [|x|x].
  - reflexivity.
  - change (pretty x) with (pretty (N.pos x)).
    destruct (pretty (N.pos x)) eqn:Hx; [by destruct (Hpos x)|done].
  - by rewrite append_cons.
Qed.

(** The record a save builds, field by field, under the timestamp it ends
    up with: the server's commit time in the collection, the client's time
    in the cache. *)
Lemma canvasDoc_stored {browser : Browser} (canvas : Canvas) (q p : Z)
    (sec : option Z) (svgData fileHash : string) (now : N) :
  let d := canvasDoc canvas q p sec svgData fileHash in
  let record t :=
    {| svg := svgData; timestamp := t;
       dimensions := (width canvas, height canvas); fileId := fileHash;
       doc_questionId := Js.toString q; doc_partId := Js.toString p;
       doc_sectionId := Js.toString <$> sec; importedAt := None |} in
  resolve now d = record (ServerTime now) /\
  with_timestamp d (LocalISO now) = record (LocalISO now).
Proof.
  intros d record. subst d record. unfold canvasDoc, resolve, with_timestamp.
  simpl. destruct sec as [z|]; simpl; [|done]. by rewrite toString_truthy.
Qed.

(** C2: save returns the encoded image after writing the record remotely and
    caching a locally stamped copy under the composite key: the collection
    holds the record with the server's commit time, the cache holds the same
    record with the client's time; without a user identity it returns null
    and touches neither remote nor cache; a failed remote write is caught
    and also gives null. *)
Theorem save_image_or_unavailable {browser : Browser} (canvas : Canvas) (q p : Z)
    (sec : option Z) (path : option string) (s : State) :
  let key := fullKey (getFileHash path) q p sec in
  let svgData := canvasToSVG canvas in
  let now := (clock (world s) + 1)%N in
  let record t :=
    {| svg := svgData; timestamp := t;
       dimensions := (width canvas, height canvas);
       fileId := getFileHash path;
       doc_questionId := Js.toString q; doc_partId := Js.toString p;
       doc_sectionId := Js.toString <$> sec; importedAt := None |} in
  let after := saveCanvasAsSVG canvas q p sec path s in
  (Js.truthy (userId (this s)) = false ->
     after.1 = Returns None /\
     this after.2 = this s /\
     collection (world after.2) = collection (world s) /\
     calls (world after.2) = calls (world s)) /\
  (Js.truthy (userId (this s)) = true -> scheduled 0 (world s) = None ->
     after.1 = Returns (Some svgData) /\
     collection (world after.2)
       = <[key := record (ServerTime now)]> (collection (world s)) /\
     canvasData (this after.2)
       = <[key := record (LocalISO now)]> (canvasData (this s)) /\
     calls (world after.2) = calls (world s) ++ [(SetDoc key, this s)]) /\
  (Js.truthy (userId (this s)) = true ->
     forall m, scheduled 0 (world s) = Some m ->
     after.1 = Returns None /\
     this after.2 = this s /\
     collection (world after.2) = collection (world s)).
Proof.
  intros key svgData now record after. subst after.
  destruct (canvasDoc_stored canvas q p sec svgData (getFileHash path) now)
    as [Hstored Hcached].
  unfold saveCanvasAsSVG. unfold_method.
  split; [|split].
  - intros ->. simpl. by destruct s as [[] []].
  - intros -> Hok. simpl. rewrite (await_resolves _ _ Hok). simpl.
    fold svgData. fold (fullKey (getFileHash path) q p sec). fold key.
    change (clock (world s) + 1)%N with now.
    rewrite Hstored, Hcached. by destruct s as [[] []].
  - intros -> m Hko. simpl. rewrite (await_rejects _ _ _ Hko). simpl.
    by destruct s as [[] []].
Qed.

Lemma save_image_or_unavailable_witness :
  let save := saveCanvasAsSVG (browser := stand_in) sketch 1 1 (Some 0) (Some "doc.tex") in
  (save (fresh None quiet)).1 = Returns None /\
  (save (fresh (Some "u") quiet)).1 = Returns (Some (canvasToSVG (browser := stand_in) sketch)) /\
  (save (fresh (Some "u") (failing "offline"))).1 = Returns None.
Proof.
  pose proof (save_image_or_unavailable (browser := stand_in) sketch 1 1
                (Some 0) (Some "doc.tex")) as T.
  split; [|split].
  - apply (T (fresh None quiet)). reflexivity.
  - apply (T (fresh (Some "u") quiet)); reflexivity.
  - apply (T (fresh (Some "u") (failing "offline"))) with (m := "offline");
      reflexivity.
Defined.

(** ** The cache *)

Lemma getCanvasCount_size (o : Storage) : getCanvasCount o = size (canvasData o).
Proof.
  unfold getCanvasCount, getAllCanvasKeys.
  by rewrite length_fmap, length_map_to_list.
Qed.

Lemma getAllCanvasKeys_lookup (o : Storage) (k : string) :
  k ∈ getAllCanvasKeys o <-> is_Some (canvasData o !! k).
Proof.
  unfold getAllCanvasKeys. rewrite list_elem_of_fmap. split.
  - intros [[k' d] [-> Hin]]. apply elem_of_map_to_list in Hin. by exists d.
  - intros [d Hd]. exists (k, d). split; [done|]. by apply elem_of_map_to_list.
Qed.


(** What a save does in each of its three cases, as one equation each. *)
Lemma save_cases {browser : Browser} (canvas : Canvas) (q p : Z)
    (sec : option Z) (path : option string) (s : State) :
  let key := fullKey (getFileHash path) q p sec in
  let d := canvasDoc canvas q p sec (canvasToSVG canvas) (getFileHash path) in
  let now := (clock (world s) + 1)%N in
  let after := saveCanvasAsSVG canvas q p sec path s in
  (Js.truthy (userId (this s)) = false /\
     after.1 = Returns None /\ this after.2 = this s) \/
  (Js.truthy (userId (this s)) = true /\ scheduled 0 (world s) = None /\
     after.1 = Returns (Some (canvasToSVG canvas)) /\
     this after.2
       = set_canvasData (<[key := with_timestamp d (LocalISO now)]> (canvasData (this s)))
           (this s)) \/
  (Js.truthy (userId (this s)) = true /\ is_Some (scheduled 0 (world s)) /\
     after.1 = Returns None /\ this after.2 = this s).
Proof.
  intros key d now after. subst after.
  unfold saveCanvasAsSVG. unfold_method.
  destruct (Js.truthy (userId (this s))) eqn:Huser; simpl.
  - destruct (scheduled 0 (world s)) as [m|] eqn:Hs.
    + right; right. rewrite (await_rejects _ _ _ Hs). simpl.
      split; [done|]. split; [by exists m|]. by destruct s as [[] []].
    + right; left. rewrite (await_resolves _ _ Hs). simpl. by destruct s as [[] []].
  - left. by destruct s as [[] []].
Qed.





(** ** Loops over snapshots and batches *)

Lemma Object_assign_union (target source : gmap string CanvasDoc) :
  Object_assign target source = source ∪ target.
Proof.
  unfold Object_assign.
  apply (map_fold_weak_ind (fun r m => r = m ∪ target)).
  - by rewrite (left_id_L ∅ (∪)).
  - intros i x m r _ ->. by rewrite insert_union_l.
Qed.

(** The [forEach] of [loadAllCanvasesForFile] keeps the snapshot's records
    of the file and lets them overwrite the cache. *)
Lemma forEach_matching (fileHash : string) (cache snapshot : gmap string CanvasDoc) :
  map_fold
    (fun id data acc =>
       if String.eqb (fileId data) fileHash then <[id := data]> acc else acc)
    cache snapshot
  = filter (fun kv => fileId kv.2 = fileHash) snapshot ∪ cache.
Proof.
  apply (map_fold_weak_ind
           (fun r m => r = filter (fun kv => fileId kv.2 = fileHash) m ∪ cache)).
  - by rewrite map_filter_empty, (left_id_L ∅ (∪)).
  - intros i x m r Hi ->. destruct (String.eqb_spec (fileId x) fileHash) as [Heq|Hne].
    + by rewrite map_filter_insert_True, insert_union_l.
    + by rewrite map_filter_insert_False, delete_id.
Qed.

(** The [for ... of Object.entries] loop of [importCanvases] queues one
    write per entry and counts the entries. *)
Lemma import_loop (entries : list (string * CanvasDoc)) (batch : list BatchOp)
    (count : nat) :
  foldl
    (fun '(batch, count) '(key, canvasData) =>
       (batch ++
          [BatchSet key
             (with_importedAt (with_timestamp canvasData ServerTimestampSentinel)
                ServerTimestampSentinel)],
        S count))
    (batch, count) entries
  = (batch ++
       ((fun '(key, canvasData) =>
           BatchSet key
             (with_importedAt (with_timestamp canvasData ServerTimestampSentinel)
                ServerTimestampSentinel)) <$> entries),
     (count + length entries)%nat).
Proof.
  revert batch count. induction entries as [|[k d] l IH]; intros batch count.
  - simpl. by rewrite (right_id_L [] (++)), Nat.add_0_r.
  - simpl. rewrite IH. f_equal.
    + by rewrite <- (assoc_L (++)).
    + lia.
Qed.

(** Committing a batch of writes with distinct ids: every id of the batch
    reads back its record as the server stamped it, every other id is as
    before. *)
Lemma commit_sets_lookup (f : CanvasDoc -> CanvasDoc) (now : N)
    (entries : list (string * CanvasDoc)) (c : gmap string CanvasDoc) (k : string) :
  NoDup entries.*1 ->
  foldl (apply_op now) c ((fun '(key, d) => BatchSet key (f d)) <$> entries) !! k
  = match (list_to_map entries : gmap string CanvasDoc) !! k with
    | Some d => Some (resolve now (f d))
    | None => c !! k
    end.
Proof.
  revert c. induction entries as [|[k0 d0] l IH]; intros c Hnd.
  - simpl. by rewrite lookup_empty.
  - apply NoDup_cons in Hnd as [Hk0 Hnd]. simpl. rewrite (IH _ Hnd).
    destruct (decide (k = k0)) as [->|Hne].
    + rewrite (not_elem_of_list_to_map_1 l k0 Hk0).
      by rewrite !lookup_insert_eq.
    + rewrite (lookup_insert_ne (list_to_map l)) by done.
      destruct (list_to_map l !! k); [done|]. by rewrite lookup_insert_ne.
Qed.

(** Committing the deletion of the listed ids. *)
Lemma commit_deletes_lookup (now : N) (ids : list string)
    (c : gmap string CanvasDoc) (k : string) :
  (k ∈ ids -> foldl (apply_op now) c (BatchDelete <$> ids) !! k = None) /\
  (k ∉ ids -> foldl (apply_op now) c (BatchDelete <$> ids) !! k = c !! k).
Proof.
  revert c. induction ids as [|i l IH]; intros c.
  - split; [by intros ?%elem_of_nil|done].
  - change (foldl (apply_op now) c (BatchDelete <$> i :: l))
      with (foldl (apply_op now) (delete i c) (BatchDelete <$> l)).
    destruct (IH (delete i c)) as [IHin IHout]. split.
    + intros Hin. destruct (decide (k ∈ l)) as [Hl|Hl]; [by apply IHin|].
      apply elem_of_cons in Hin as [->|?]; [|done].
      rewrite (IHout Hl). apply lookup_delete_eq.
    + intros Hout. apply not_elem_of_cons in Hout as [Hne Hl].
      rewrite (IHout Hl). by apply lookup_delete_ne.
Qed.

(** Deleting every document of a snapshot of the collection empties it. *)
Lemma commit_deletes_all (now : N) (c : gmap string CanvasDoc) :
  foldl (apply_op now) c ((fun '(id, _) => BatchDelete id) <$> map_to_list c) = ∅.
Proof.
  apply map_eq. intros k. rewrite lookup_empty.
  replace ((fun '(id, _) => BatchDelete id) <$> map_to_list c)
    with (BatchDelete <$> (map_to_list c).*1).
  2:{ rewrite <- list_fmap_compose. apply list_fmap_ext. by intros _ [??] _. }
  destruct (commit_deletes_lookup now (map_to_list c).*1 c k) as [Hin Hout].
  destruct (c !! k) as [d|] eqn:Hk.
  - apply Hin. apply list_elem_of_fmap. exists (k, d).
    split; [done|]. by apply elem_of_map_to_list.
  - destruct (decide (k ∈ (map_to_list c).*1)); [by apply Hin|by rewrite Hout].
Qed.

(** ** import *)

(** What an import does once the file has parsed to an object with a
    [canvases] mapping and the batch commits. *)
Lemma import_committed (data : ExportData) (cs : gmap string CanvasDoc) (s : State) :
  let after := importCanvases (Readable (JsonObject data)) s in
  let now := (clock (world s) + 1)%N in
  let restamp d :=
    with_importedAt (with_timestamp d ServerTimestampSentinel)
      ServerTimestampSentinel in
  canvases data = Some cs -> scheduled 0 (world s) = None ->
  after.1 = Returns (size cs) /\
  (forall k, collection (world after.2) !! k
             = match cs !! k with
               | Some d => Some (resolve now (restamp d))
               | None => collection (world s) !! k
               end) /\
  canvasData (this after.2) = cs ∪ canvasData (this s) /\
  calls (world after.2) = calls (world s) ++ [(BatchCommit (size cs), this s)].
Proof.
  intros after now restamp Hcs Hok. subst after.
  unfold importCanvases, JSON_parse, get_canvases. unfold_method.
  rewrite Hcs. rewrite import_loop. simpl.
  rewrite (await_resolves _ _ Hok). simpl.
  rewrite length_fmap, length_map_to_list, Object_assign_union.
  repeat split; try done.
  intros k. rewrite (commit_sets_lookup restamp) by apply NoDup_fst_map_to_list.
  by rewrite list_to_map_to_list.
Qed.

(** C6: without a top-level [canvases] mapping the import fails with the
    format error and changes nothing (a payload that is [null] is rejected
    as well, through the catch block); with one, and the batch committed, it
    writes every entry, merges the mapping into the cache and returns the
    number of entries, so a mapping with the two keys a and b gives 2 and
    both keys are among the cached keys. *)
Theorem import_count_or_format_error (data : ExportData) (s : State) :
  let after := importCanvases (Readable (JsonObject data)) s in
  let now := (clock (world s) + 1)%N in
  let restamp d :=
    with_importedAt (with_timestamp d ServerTimestampSentinel)
      ServerTimestampSentinel in
  (canvases data = None ->
     after = (Throws (Error "Invalid canvas data format"), s)) /\
  (exists e, importCanvases (Readable JsonNull) s = (Throws e, s)) /\
  (forall cs, canvases data = Some cs -> scheduled 0 (world s) = None ->
     after.1 = Returns (size cs) /\
     (forall k, collection (world after.2) !! k
                = match cs !! k with
                  | Some d => Some (resolve now (restamp d))
                  | None => collection (world s) !! k
                  end) /\
     canvasData (this after.2) = cs ∪ canvasData (this s) /\
     (forall k, is_Some (cs !! k) -> k ∈ getAllCanvasKeys (this after.2))) /\
  (forall a b da db, a <> b ->
     canvases data = Some {[ a := da; b := db ]} -> scheduled 0 (world s) = None ->
     after.1 = Returns 2%nat /\
     a ∈ getAllCanvasKeys (this after.2) /\ b ∈ getAllCanvasKeys (this after.2)).
Proof.
  intros after now restamp. split; [|split; [|split]].
  - intros Hnone. subst after.
    unfold importCanvases, JSON_parse, get_canvases. unfold_method.
    by rewrite Hnone.
  - by eexists.
  - intros cs Hcs Hok.
    destruct (import_committed data cs s Hcs Hok) as (Hr & Hremote & Hcache & _).
    repeat split; try done.
    intros k [d Hk]. apply getAllCanvasKeys_lookup. subst after. rewrite Hcache.
    exists d. by apply lookup_union_Some_l.
  - intros a b da db Hne Hcs Hok.
    destruct (import_committed data _ s Hcs Hok) as (Hr & _ & Hcache & _).
    subst after. split; [|split].
    + rewrite Hr. f_equal.
      rewrite map_size_insert_None by (by rewrite lookup_singleton_ne).
      by rewrite map_size_singleton.
    + apply getAllCanvasKeys_lookup. rewrite Hcache. exists da.
      apply lookup_union_Some_l. apply lookup_insert_eq.
    + apply getAllCanvasKeys_lookup. rewrite Hcache. exists db.
      apply lookup_union_Some_l. rewrite lookup_insert_ne by done.
      apply lookup_singleton_eq.
Qed.

Lemma import_count_or_format_error_witness :
  (importCanvases (Readable (JsonObject without_canvases)) (fresh (Some "u") quiet)).1
    = Throws (Error "Invalid canvas data format") /\
  (importCanvases (Readable (JsonObject with_a_and_b)) (fresh (Some "u") quiet)).1
    = Returns 2%nat.
Proof.
  split.
  - pose proof (proj1 (import_count_or_format_error without_canvases
                         (fresh (Some "u") quiet)) eq_refl) as T.
    simpl in T. by rewrite T.
  - refine (proj1 (proj2 (proj2 (proj2 (import_count_or_format_error with_a_and_b
                                          (fresh (Some "u") quiet))))
                     "a" "b" sketch_record imageless_record _ eq_refl eq_refl)).
    discriminate.
Defined.

(** ** load *)

(** A cached record without an image is answered like a missing one, and
    nothing else happens. *)
Lemma load_imageless {browser : Browser} (canvas : Canvas) (q p : Z)
    (sec : option Z) (path : option string) (s : State) (d : CanvasDoc) :
  Js.truthy (userId (this s)) = true ->
  canvasData (this s) !! fullKey (getFileHash path) q p sec = Some d ->
  Js.truthy (Some (svg d)) = false ->
  loadCanvasFromSVG canvas q p sec path s = (Returns (false, canvas), s).
Proof.
  intros Hu Hc Ht. unfold loadCanvasFromSVG. unfold_method. rewrite Hu. simpl.
  change (getFileHash path +:+ "_" +:+ getCanvasKey q p sec)
    with (fullKey (getFileHash path) q p sec).
  rewrite Hc. simpl. rewrite Ht. by destruct s.
Qed.

(** C3, as the code has it: with a user identity, a cached record whose
    image is non-empty and decodes gives true with no remote read and no
    change of state; on a miss there is one remote read, the record found
    is cached and gives true if its image is non-empty and decodes; absent
    from both gives false; a failed read gives false; a record whose image
    is empty or does not decode gives false, be it cached (nothing else
    happens) or fetched on a miss (one remote read, and the record is cached
    all the same); no case throws. *)
Theorem load_found_or_false {browser : Browser} (canvas : Canvas) (q p : Z)
    (sec : option Z) (path : option string) (s : State) :
  let key := fullKey (getFileHash path) q p sec in
  let after := loadCanvasFromSVG canvas q p sec path s in
  let decodes (d : CanvasDoc) (img : string) :=
    Js.truthy (Some (svg d)) = true /\
    exists href, parseImageHref (svg d) = Some href /\ loadImage href = Some img in
  let undecodable (d : CanvasDoc) :=
    Js.truthy (Some (svg d)) = false \/ parseImageHref (svg d) = None \/
    exists href, parseImageHref (svg d) = Some href /\ loadImage href = None in
  Js.truthy (userId (this s)) = true ->
  (forall d img, canvasData (this s) !! key = Some d -> decodes d img ->
     after = (Returns (true, drawImage canvas img), s)) /\
  (forall d img, canvasData (this s) !! key = None ->
     scheduled 0 (world s) = None -> collection (world s) !! key = Some d ->
     decodes d img ->
     after.1 = Returns (true, drawImage canvas img) /\
     canvasData (this after.2) = <[key := d]> (canvasData (this s)) /\
     calls (world after.2) = calls (world s) ++ [(GetDoc key, this s)]) /\
  (canvasData (this s) !! key = None ->
     scheduled 0 (world s) = None -> collection (world s) !! key = None ->
     after.1 = Returns (false, canvas) /\ this after.2 = this s /\
     calls (world after.2) = calls (world s) ++ [(GetDoc key, this s)]) /\
  (forall m, canvasData (this s) !! key = None ->
     scheduled 0 (world s) = Some m ->
     after.1 = Returns (false, canvas) /\ this after.2 = this s /\
     collection (world after.2) = collection (world s)) /\
  (forall d, canvasData (this s) !! key = Some d -> undecodable d ->
     after.1 = Returns (false, canvas) /\ this after.2 = this s /\
     calls (world after.2) = calls (world s)) /\
  (forall d, canvasData (this s) !! key = None ->
     scheduled 0 (world s) = None -> collection (world s) !! key = Some d ->
     undecodable d ->
     after.1 = Returns (false, canvas) /\
     canvasData (this after.2) = <[key := d]> (canvasData (this s)) /\
     calls (world after.2) = calls (world s) ++ [(GetDoc key, this s)]) /\
  (exists found canvas', after.1 = Returns (found, canvas')).
Proof.
  intros key after decodes undecodable Huser. subst after.
  unfold loadCanvasFromSVG, loadSVGToCanvas. unfold_method. rewrite Huser. simpl.
  change (getFileHash path +:+ "_" +:+ getCanvasKey q p sec) with key.
  split; [|split; [|split; [|split; [|split; [|split]]]]].
  - intros d img Hc (Ht & href & Hp & Hl). rewrite Hc. simpl.
    rewrite Ht, Hp, Hl. by destruct s.
  - intros d img Hc Hok Hr (Ht & href & Hp & Hl).
    rewrite Hc, (await_resolves _ _ Hok). simpl. rewrite Hr. simpl.
    rewrite Ht, Hp, Hl. simpl. by destruct s as [[] []].
  - intros Hc Hok Hr. rewrite Hc, (await_resolves _ _ Hok). simpl.
    rewrite Hr. simpl. by destruct s as [[] []].
  - intros m Hc Hko. rewrite Hc, (await_rejects _ _ _ Hko). simpl.
    by destruct s as [[] []].
  - intros d Hc Hbad. rewrite Hc. simpl.
    destruct (Js.truthy (Some (svg d))) eqn:Ht.
    + destruct Hbad as [Hf|[Hp|(href & Hp & Hl)]]; [congruence| |].
      * rewrite Hp. simpl. by destruct s as [[] []].
      * rewrite Hp, Hl. simpl. by destruct s as [[] []].
    + by destruct s as [[] []].
  - intros d Hc Hok Hr Hbad.
    rewrite Hc, (await_resolves _ _ Hok). simpl. rewrite Hr. simpl.
    destruct (Js.truthy (Some (svg d))) eqn:Ht.
    + destruct Hbad as [Hf|[Hp|(href & Hp & Hl)]]; [congruence| |].
      * rewrite Hp. simpl. by destruct s as [[] []].
      * rewrite Hp, Hl. simpl. by destruct s as [[] []].
    + by destruct s as [[] []].
  - destruct (canvasData (this s) !! key) as [d|]; simpl.
    + destruct (Js.truthy (Some (svg d))); [|by eauto].
      destruct (parseImageHref (svg d)) as [href|]; [|by eauto].
      destruct (loadImage href); by eauto.
    + destruct (scheduled 0 (world s)) as [m|] eqn:Hs.
      * rewrite (await_rejects _ _ _ Hs). simpl. by eauto.
      * rewrite (await_resolves _ _ Hs). simpl.
        destruct (collection (world s) !! key) as [d|]; simpl; [|by eauto].
        destruct (Js.truthy (Some (svg d))); [|by eauto].
        destruct (parseImageHref (svg d)) as [href|]; [|by eauto].
        destruct (loadImage href); by eauto.
Qed.

(** C3 as stated fails: after importing a file whose entry carries no image
    the key is in the cache, yet load answers false. *)
Lemma load_cached_imageless_false :
  let imported :=
    (importCanvases (Readable (JsonObject imageless_file)) (fresh (Some "u") quiet)).2 in
  sketch_key ∈ getAllCanvasKeys (this imported) /\
  canvasData (this imported) !! sketch_key = Some imageless_record /\
  (loadCanvasFromSVG (browser := stand_in) sketch 1 1 (Some 0) (Some "doc.tex")
     imported).1 = Returns (false, sketch).
Proof.
  intros imported.
  assert (canvasData (this imported) !! sketch_key = Some imageless_record) as Hk.
  { destruct (import_committed imageless_file _ (fresh (Some "u") quiet)
                eq_refl eq_refl) as (_ & _ & Hcache & _).
    unfold imported. rewrite Hcache. apply lookup_union_Some_l.
    apply lookup_singleton_eq. }
  split; [|split; [exact Hk|]].
  - apply getAllCanvasKeys_lookup. by eexists.
  - by rewrite (load_imageless (browser := stand_in) sketch 1 1 (Some 0)
                  (Some "doc.tex") imported imageless_record eq_refl Hk eq_refl).
Qed.

Lemma load_found_or_false_witness :
  let s := caching sketch_record quiet in
  loadCanvasFromSVG (browser := stand_in) sketch 1 1 (Some 0) (Some "doc.tex") s
    = (Returns (true, sketch), s).
Proof.
  intros s.
  refine (proj1 (load_found_or_false (browser := stand_in) sketch 1 1 (Some 0)
                   (Some "doc.tex") s _) sketch_record _ _ _).
  - reflexivity.
  - apply lookup_singleton_eq.
  - split; [reflexivity|]. eexists. split; reflexivity.
Defined.

(** ** loadAllForDocument *)

(** C7: with a user identity the call never throws, the fetch is issued with
    the loading flag set, the flag is clear afterwards whether the fetch
    succeeded or failed, and after a successful fetch the cache holds, over
    what it held, exactly the remote records of this document; an empty
    collection leaves the count as it was.  Without an identity nothing
    changes, so a clear flag stays clear on every path. *)
Theorem loadAll_flag_and_merge {browser : Browser} (path : option string) (s : State) :
  let fileHash := getFileHash path in
  let after := loadAllCanvasesForFile path s in
  let entered := set_isLoading true (this s) in
  (Js.truthy (userId (this s)) = true ->
     after.1 = Returns tt /\
     isLoading entered = true /\
     calls (world after.2) = calls (world s) ++ [(GetDocs, entered)] /\
     isLoading (this after.2) = false /\
     (scheduled 0 (world s) = None ->
        canvasData (this after.2)
        = filter (fun kv => fileId kv.2 = fileHash) (collection (world s))
            ∪ canvasData (this s)) /\
     (is_Some (scheduled 0 (world s)) ->
        canvasData (this after.2) = canvasData (this s)) /\
     (collection (world s) = ∅ ->
        getCanvasCount (this after.2) = getCanvasCount (this s))) /\
  (Js.truthy (userId (this s)) = false ->
     after.1 = Returns tt /\ this after.2 = this s) /\
  (isLoading (this s) = false -> isLoading (this after.2) = false).
Proof.
  intros fileHash after entered.
  assert (Js.truthy (userId (this s)) = true ->
     after.1 = Returns tt /\
     calls (world after.2) = calls (world s) ++ [(GetDocs, entered)] /\
     isLoading (this after.2) = false /\
     (scheduled 0 (world s) = None ->
        canvasData (this after.2)
        = filter (fun kv => fileId kv.2 = fileHash) (collection (world s))
            ∪ canvasData (this s)) /\
     (is_Some (scheduled 0 (world s)) ->
        canvasData (this after.2) = canvasData (this s))) as Huser.
  { intros Hu. subst after. unfold loadAllCanvasesForFile. unfold_method.
    rewrite Hu. simpl. unfold await. simpl.
    destruct (scheduled 0 (world s)) as [m|] eqn:Hs; simpl.
    - repeat split; try done.
    - rewrite forEach_matching. repeat split; try done. }
  assert (Js.truthy (userId (this s)) = false ->
          after.1 = Returns tt /\ this after.2 = this s) as Hnone.
  { intros Hu. subst after. unfold loadAllCanvasesForFile. unfold_method.
    rewrite Hu. simpl. by destruct s as [[] []]. }
  split; [|split; [done|]].
  - intros Hu. destruct (Huser Hu) as (Hr & Hcalls & Hflag & Hok & Hko).
    repeat split; try done.
    intros Hempty. rewrite !getCanvasCount_size.
    destruct (scheduled 0 (world s)) as [m|] eqn:Hs.
    + by rewrite Hko.
    + rewrite Hok by done. rewrite Hempty, map_filter_empty.
      by rewrite (left_id_L ∅ (∪)).
  - intros Hclear. destruct (Js.truthy (userId (this s))) eqn:Hu.
    + by destruct (Huser eq_refl) as (_ & _ & Hflag & _).
    + destruct (Hnone eq_refl) as [_ Ho]. by rewrite Ho.
Qed.

Lemma loadAll_flag_and_merge_witness :
  let after :=
    loadAllCanvasesForFile (browser := stand_in) (Some "doc.tex")
      (caching sketch_record quiet) in
  isLoading (this after.2) = false /\
  getCanvasCount (this after.2) = getCanvasCount (this (caching sketch_record quiet)).
Proof.
  intros after.
  destruct (proj1 (loadAll_flag_and_merge (browser := stand_in) (Some "doc.tex")
                     (caching sketch_record quiet)) eq_refl)
    as (_ & _ & _ & Hflag & _ & _ & Hcount).
  split; [exact Hflag|]. apply Hcount. reflexivity.
Defined.

(** ** clearAll *)

(** C9: the cache is emptied only once the batch delete has committed: if
    the read of the collection or the commit fails, the failure is thrown to
    the caller and the storage object, hence its cached keys and count, is
    as before; if both succeed, cache and collection are empty. *)
Theorem clearAll_cache_atomic (s : State) :
  let after := clearAllCanvases s in
  (forall m, scheduled 0 (world s) = Some m ->
     after.1 = Throws (Error m) /\
     this after.2 = this s /\
     collection (world after.2) = collection (world s)) /\
  (forall m, scheduled 0 (world s) = None -> scheduled 1 (world s) = Some m ->
     after.1 = Throws (Error m) /\
     this after.2 = this s /\
     collection (world after.2) = collection (world s)) /\
  (scheduled 0 (world s) = None -> scheduled 1 (world s) = None ->
     after.1 = Returns tt /\
     canvasData (this after.2) = ∅ /\
     collection (world after.2) = ∅) /\
  (this after.2 = this s ->
     getAllCanvasKeys (this after.2) = getAllCanvasKeys (this s) /\
     getCanvasCount (this after.2) = getCanvasCount (this s)).
Proof.
  intros after. subst after. unfold clearAllCanvases. unfold_method.
  split; [|split; [|split]].
  - intros m Hko. rewrite (await_rejects _ _ _ Hko). simpl.
    by destruct s as [[] []].
  - intros m Hok Hko. rewrite (await_resolves _ _ Hok). simpl.
    rewrite await_rejects with (m := m)
      by (simpl; by rewrite scheduled_round_trip).
    simpl. by destruct s as [[] []].
  - intros Hok Hok'. rewrite (await_resolves _ _ Hok). simpl.
    rewrite await_resolves by (simpl; by rewrite scheduled_round_trip).
    simpl. split; [done|]. split; [done|]. apply commit_deletes_all.
  - by intros ->.
Qed.

Lemma clearAll_cache_atomic_witness :
  let s := caching sketch_record (failing "offline") in
  (clearAllCanvases s).1 = Throws (Error "offline") /\
  getCanvasCount (this (clearAllCanvases s).2) = getCanvasCount (this s).
Proof.
  intros s.
  destruct (clearAll_cache_atomic s) as (Hread & _ & _ & Hsame).
  destruct (Hread "offline" eq_refl) as (Hr & Ho & _).
  split; [exact Hr|]. by apply Hsame.
Defined.

(** ** No user identity *)

(** C4 as stated fails: a store built without a user identity throws from
    export, import, clear and delete when their remote call is refused. *)
Lemma no_identity_operations_throw :
  let s := fresh None (failing "offline") in
  userId (this s) = None /\
  (exportAllCanvases s).1 = Throws (Error "offline") /\
  (importCanvases (Readable (JsonObject with_a_and_b)) s).1
    = Throws (Error "Failed to import canvas data: offline") /\
  (clearAllCanvases s).1 = Throws (Error "offline") /\
  (deleteCanvas (browser := stand_in) 1 1 (Some 0) (Some "doc.tex") s).1
    = Throws (Error "offline").
Proof.
  repeat split.
Qed.

(** C4, as the code has it: without a user identity save gives null, load
    gives false and loadAllForDocument gives undefined, none of them throws,
    and storage object, collection and call log are untouched.  Export,
    import, clear and delete do not look at the identity: when their remote
    call is rejected they throw, whoever the user is. *)
Theorem no_identity_unavailable {browser : Browser} (s : State) :
  (Js.truthy (userId (this s)) = false ->
   (forall canvas q p sec path,
      let after := saveCanvasAsSVG canvas q p sec path s in
      after.1 = Returns None /\ this after.2 = this s /\
      collection (world after.2) = collection (world s) /\
      calls (world after.2) = calls (world s)) /\
   (forall canvas q p sec path,
      let after := loadCanvasFromSVG canvas q p sec path s in
      after.1 = Returns (false, canvas) /\ this after.2 = this s /\
      collection (world after.2) = collection (world s) /\
      calls (world after.2) = calls (world s)) /\
   (forall path,
      let after := loadAllCanvasesForFile path s in
      after.1 = Returns tt /\ this after.2 = this s /\
      collection (world after.2) = collection (world s) /\
      calls (world after.2) = calls (world s))) /\
  (forall m, scheduled 0 (world s) = Some m ->
     (exportAllCanvases s).1 = Throws (Error m) /\
     (clearAllCanvases s).1 = Throws (Error m) /\
     (forall q p sec path, (deleteCanvas q p sec path s).1 = Throws (Error m)) /\
     (forall data cs, canvases data = Some cs ->
        (importCanvases (Readable (JsonObject data)) s).1
        = Throws (Error ("Failed to import canvas data: " +:+ m)))).
Proof.
  split.
  - intros Hu. split; [|split]; intros.
    + subst after. unfold saveCanvasAsSVG. unfold_method. rewrite Hu. simpl.
      by destruct s as [[] []].
    + subst after. unfold loadCanvasFromSVG. unfold_method. rewrite Hu. simpl.
      by destruct s as [[] []].
    + subst after. unfold loadAllCanvasesForFile. unfold_method. rewrite Hu.
      simpl. by destruct s as [[] []].
  - intros m Hko. split; [|split; [|split]].
    + unfold exportAllCanvases. unfold_method. by rewrite (await_rejects _ _ _ Hko).
    + unfold clearAllCanvases. unfold_method. by rewrite (await_rejects _ _ _ Hko).
    + intros. unfold deleteCanvas. unfold_method.
      by rewrite (await_rejects _ _ _ Hko).
    + intros data cs Hcs. unfold importCanvases, JSON_parse, get_canvases.
      unfold_method. rewrite Hcs, import_loop. simpl.
      by rewrite (await_rejects _ _ _ Hko).
Qed.

Lemma no_identity_unavailable_witness :
  let s := fresh (Some EmptyString) (failing "offline") in
  (saveCanvasAsSVG (browser := stand_in) sketch 1 1 None None s).1 = Returns None /\
  (loadCanvasFromSVG (browser := stand_in) sketch 1 1 None None s).1
    = Returns (false, sketch) /\
  (loadAllCanvasesForFile (browser := stand_in) None s).1 = Returns tt /\
  (exportAllCanvases s).1 = Throws (Error "offline").
Proof.
  intros s.
  destruct (no_identity_unavailable (browser := stand_in) s) as [Hguard Hthrow].
  destruct (Hguard eq_refl) as (Hsave & Hload & Hall).
  split; [apply Hsave|]. split; [apply Hload|]. split; [apply Hall|].
  apply (Hthrow "offline" eq_refl).
Defined.

(** ** SectionNavigator *)

(** Turns the boolean tests of the carousel into arithmetic facts. *)
Ltac tests_to_Z :=
  repeat match goal with
  | H : _ || _ = true |- _ => apply orb_true_iff in H as [H|H]
  | H : _ || _ = false |- _ => apply orb_false_iff in H as [? ?]
  | H : (_ >=? _) = _ |- _ => rewrite Z.geb_leb in H
  | H : (_ >? _) = _ |- _ => rewrite Z.gtb_ltb in H
  | H : (_ <? _) = true |- _ => apply Z.ltb_lt in H
  | H : (_ <? _) = false |- _ => apply Z.ltb_ge in H
  | H : (_ <=? _) = true |- _ => apply Z.leb_le in H
  | H : (_ <=? _) = false |- _ => apply Z.leb_gt in H
  end.

Lemma showSection_sections (i : Z) (app : QuizApp) :
  getSections (showSection i app) = getSections app.
Proof. unfold showSection. by case_match. Qed.

Lemma step_sections (app : QuizApp) (t : Transition) :
  getSections (step app t) = getSections app.
Proof.
  destruct t; simpl; unfold previousSection, nextSection;
    repeat case_match; by rewrite ?showSection_sections.
Qed.

Lemma showSection_index (i : Z) (app : QuizApp) :
  currentSectionIndex (showSection i app)
  = if (i <? 0) || (i >=? sectionCount app) then currentSectionIndex app else i.
Proof. unfold showSection, sectionCount. by case_match. Qed.

(** One request keeps the index inside the sections. *)
Lemma step_in_range (app : QuizApp) (t : Transition) :
  0 <= currentSectionIndex app < sectionCount app ->
  0 <= currentSectionIndex (step app t) < sectionCount app.
Proof.
  intros Hin. destruct t as [i| |]; simpl;
    unfold previousSection, nextSection; fold (sectionCount app);
    repeat case_match; try done;
    rewrite showSection_index; case_match; try done; tests_to_Z; lia.
Qed.

Lemma run_in_range (ts : list Transition) (app : QuizApp) :
  0 <= currentSectionIndex app < sectionCount app ->
  0 <= currentSectionIndex (run app ts) < sectionCount app /\
  getSections (run app ts) = getSections app.
Proof.
  revert app. induction ts as [|t ts IH]; intros app Hin; [done|].
  unfold run. simpl. fold (run (step app t) ts).
  assert (sectionCount (step app t) = sectionCount app) as Hn
    by (unfold sectionCount; by rewrite step_sections).
  destruct (IH (step app t)) as [Hr Hs].
  { rewrite Hn. by apply step_in_range. }
  rewrite Hn in Hr. by rewrite Hs, step_sections.
Qed.

(** C5: from a document rendered with at least one section, and from any
    state whose index is inside the sections, every sequence of requests
    keeps the index in [0, n) and the section count fixed; a request for an
    index below 0 or from n on changes nothing; previous at 0 and next at
    n-1 change nothing; with three sections three nexts from 0 give 1, 2, 2. *)
Theorem navigator_bounds (app : QuizApp) :
  let n := sectionCount app in
  (forall sections ts, sections <> [] ->
     let app' := run (renderSectionCarousel sections app) ts in
     0 <= currentSectionIndex app' < Z.of_nat (length sections) /\
     getSections app' = sections) /\
  (0 <= currentSectionIndex app < n ->
   forall ts, 0 <= currentSectionIndex (run app ts) < n /\
              sectionCount (run app ts) = n) /\
  (forall i, i < 0 \/ n <= i -> showSection i app = app) /\
  (currentSectionIndex app = 0 -> previousSection app = app) /\
  (currentSectionIndex app = n - 1 -> nextSection app = app) /\
  (n = 3 -> currentSectionIndex app = 0 ->
   currentSectionIndex (nextSection app) = 1 /\
   currentSectionIndex (nextSection (nextSection app)) = 2 /\
   currentSectionIndex (nextSection (nextSection (nextSection app))) = 2).
Proof.
  intros n. split; [|split; [|split; [|split; [|split]]]].
  - intros sections ts Hne app'. subst app'.
    set (start := renderSectionCarousel sections app).
    assert (getSections start = sections) as Hs
      by (unfold start, renderSectionCarousel; by rewrite showSection_sections).
    assert (currentSectionIndex start = 0) as H0.
    { unfold start, renderSectionCarousel. rewrite showSection_index.
      unfold sectionCount. cbn [getSections currentSectionIndex].
      destruct sections as [|x l]; [done|].
      case_match; [|done]. tests_to_Z; simpl length in *; lia. }
    destruct (run_in_range ts start) as [Hr Hk].
    { rewrite H0. unfold sectionCount. rewrite Hs.
      destruct sections; [done|]. simpl length. lia. }
    unfold sectionCount in Hr. rewrite Hs in Hr. by rewrite Hk.
  - intros Hin ts. destruct (run_in_range ts app Hin) as [Hr Hs].
    split; [done|]. unfold sectionCount. by rewrite Hs.
  - intros i Hi. unfold showSection. fold (sectionCount app). fold n.
    case_match; [done|]. tests_to_Z. lia.
  - intros H0. unfold previousSection. rewrite H0. done.
  - intros Hlast. unfold nextSection. fold (sectionCount app). fold n.
    case_match; [tests_to_Z; lia|done].
  - intros Hn H0. unfold n in Hn.
    assert (forall a, sectionCount a = 3 -> 0 <= currentSectionIndex a ->
              currentSectionIndex (nextSection a)
              = if currentSectionIndex a <? 2 then currentSectionIndex a + 1
                else currentSectionIndex a) as Hnext.
    { intros a Ha Hpos. unfold nextSection. fold (sectionCount a). rewrite Ha.
      change (3 - 1) with 2. case_match; [|done].
      rewrite showSection_index, Ha. case_match; [tests_to_Z; lia|done]. }
    assert (forall a, sectionCount (nextSection a) = sectionCount a) as Hcount.
    { intros a. unfold sectionCount. f_equal. f_equal. apply (step_sections a Next). }
    assert (currentSectionIndex (nextSection app) = 1) as H1.
    { rewrite Hnext by (done || lia). by rewrite H0. }
    assert (currentSectionIndex (nextSection (nextSection app)) = 2) as H2.
    { rewrite Hnext by (by rewrite ?Hcount || lia). by rewrite H1. }
    split; [done|]. split; [done|].
    rewrite Hnext by (by rewrite ?Hcount || lia). by rewrite H2.
Qed.

Lemma navigator_bounds_witness :
  let app := renderSectionCarousel three_sections new_QuizApp in
  currentSectionIndex (run app [Next; Next; Next; GoTo 7; Previous; GoTo (-1)]) = 1 /\
  currentSectionIndex (nextSection (nextSection (nextSection app))) = 2.
Proof.
  intros app. split; [reflexivity|].
  apply (navigator_bounds app); reflexivity.
Defined.

(* ===================================================================== *)
(** * Further properties of the storage class *)
(* ===================================================================== *)

(** ** The hex digest *)

Lemma hex_digit_is_hex (d : N) : is_hex (Js.hex_digit d) = true.
Proof. unfold Js.hex_digit. repeat case_match; reflexivity. Qed.

Lemma padded_byte (b : Byte.byte) :
  exists c1 c2, Js.padStart 2 "0" (Js.toString16 b) = String c1 (String c2 EmptyString)
                /\ is_hex c1 = true /\ is_hex c2 = true.
Proof.
  unfold Js.toString16. case_match.
  - exists "0"%char, (Js.hex_digit (Byte.to_N b)).
    split; [reflexivity|]. split; [reflexivity|apply hex_digit_is_hex].
  - eexists _, _. split; [reflexivity|]. split; apply hex_digit_is_hex.
Qed.

Lemma all_chars_append (ok : ascii -> bool) (s t : string) :
  all_chars ok (s +:+ t) = all_chars ok s && all_chars ok t.
Proof.
  induction s as [|c s IH]; [reflexivity|].
  rewrite append_cons. simpl. by rewrite IH, andb_assoc.
Qed.

Lemma length_append (s t : string) :
  String.length (s +:+ t) = (String.length s + String.length t)%nat.
Proof. induction s as [|c s IH]; [reflexivity|]. rewrite append_cons. simpl. by rewrite IH. Qed.

Lemma hex_no_underscore (s : string) :
  all_chars is_hex s = true -> Js.mentions "_" s = false.
Proof.
  induction s as [|c s IH]; [reflexivity|]. simpl.
  intros [Hc Hs]%andb_true_iff. rewrite (IH Hs).
  destruct (Ascii.eqb_spec c "_") as [->|_]; [discriminate Hc|reflexivity].
Qed.

Lemma join_padded_hex (l : list Byte.byte) :
  let hex := Js.join (map (fun b => Js.padStart 2 "0" (Js.toString16 b)) l) in
  String.length hex = (2 * length l)%nat /\ all_chars is_hex hex = true.
Proof.
  induction l as [|b l [IHlen IHhex]]; [by split|].
  cbn [map Js.join length].
  destruct (padded_byte b) as (c1 & c2 & -> & H1 & H2).
  rewrite length_append, all_chars_append, IHlen, IHhex. simpl.
  rewrite H1, H2. split; [lia|reflexivity].
Qed.

Lemma getFileHash_no_underscore {browser : Browser} (path : option string) :
  Js.mentions "_" (getFileHash path) = false.
Proof. apply hex_no_underscore, join_padded_hex. Qed.

(** X1: the document identifier is two lowercase hexadecimal characters per
    digest byte, whatever the digest function returns. *)
Theorem hashString_hex {browser : Browser} (str : string) :
  String.length (hashString str) = (2 * length (digest (encode str)))%nat /\
  all_chars is_hex (hashString str) = true.
Proof. apply join_padded_hex. Qed.

(** X2: composite keys do not collide across documents either: two keys
    built on document identifiers agree only if the identifiers and the
    (section, question, part) tuples agree. *)
Theorem composite_key_unique_across_documents {browser : Browser}
    (path path' : option string) (q p q' p' : Z) (s s' : option Z) :
  fullKey (getFileHash path) q p s = fullKey (getFileHash path') q' p' s' ->
  getFileHash path = getFileHash path' /\ s = s' /\ q = q' /\ p = p'.
Proof.
  unfold fullKey. intros Heq.
  apply split_at_underscore in Heq as [Hd Hk];
    try apply getFileHash_no_underscore.
  split; [done|]. by apply getCanvasKey_inj.
Qed.

Lemma composite_key_unique_across_documents_witness :
  getFileHash (browser := stand_in) (Some EmptyString)
    = getFileHash (browser := stand_in) None /\
  Some 0 = Some 0 /\ 1 = 1 /\ 2 = 2.
Proof.
  apply (composite_key_unique_across_documents (browser := stand_in)
           (Some EmptyString) None 1 2 1 2 (Some 0) (Some 0)).
  reflexivity.
Defined.

(** ** Round trips through the cache *)

(** A load that finds its key in the cache talks to nobody and changes
    neither the storage object nor the collection; if the cached image is
    non-empty and decodes, it answers true and nothing at all changes. *)
Lemma load_hit {browser : Browser} (canvas : Canvas) (q p : Z)
    (sec : option Z) (path : option string) (s : State) (d : CanvasDoc) :
  let after := loadCanvasFromSVG canvas q p sec path s in
  Js.truthy (userId (this s)) = true ->
  canvasData (this s) !! fullKey (getFileHash path) q p sec = Some d ->
  (this after.2 = this s /\
   collection (world after.2) = collection (world s) /\
   calls (world after.2) = calls (world s)) /\
  (forall href img,
     Js.truthy (Some (svg d)) = true -> parseImageHref (svg d) = Some href ->
     loadImage href = Some img ->
     after = (Returns (true, drawImage canvas img), s)).
Proof.
  intros after Hu Hc. subst after.
  unfold loadCanvasFromSVG, loadSVGToCanvas. unfold_method. rewrite Hu. simpl.
  change (getFileHash path +:+ "_" +:+ getCanvasKey q p sec)
    with (fullKey (getFileHash path) q p sec).
  rewrite Hc. simpl. split.
  - destruct (Js.truthy (Some (svg d))); [|by destruct s as [[] []]].
    destruct (parseImageHref (svg d)) as [href|]; [|by destruct s as [[] []]].
    destruct (loadImage href); by destruct s as [[] []].
  - intros href img -> -> ->. by destruct s.
Qed.

(** X3: a drawing that has just been saved is loaded back from the cache:
    no remote call is made, the answer is true, the state is as the save
    left it, and the target surface receives the image that the saved
    encoding decodes to. *)
Theorem save_then_load {browser : Browser} (canvas target : Canvas) (q p : Z)
    (sec : option Z) (path : option string) (s : State) (href img : string) :
  let saved := (saveCanvasAsSVG canvas q p sec path s).2 in
  Js.truthy (userId (this s)) = true ->
  scheduled 0 (world s) = None ->
  Js.truthy (Some (canvasToSVG canvas)) = true ->
  parseImageHref (canvasToSVG canvas) = Some href ->
  loadImage href = Some img ->
  loadCanvasFromSVG target q p sec path saved
  = (Returns (true, drawImage target img), saved).
Proof.
  intros saved Hu Hok Hsvg Hparse Himg.
  destruct (save_cases canvas q p sec path s)
    as [(Hno & _)|[(_ & _ & _ & Ho)|(_ & [m Hm] & _)]]; try congruence.
  fold saved in Ho.
  assert (Js.truthy (userId (this saved)) = true) as Hu'
    by (by rewrite Ho).
  pose proof (lookup_insert_eq (canvasData (this s))
                (fullKey (getFileHash path) q p sec)
                (with_timestamp
                   (canvasDoc canvas q p sec (canvasToSVG canvas) (getFileHash path))
                   (LocalISO (clock (world s) + 1)))) as Hc.
  assert (canvasData (this saved) !! fullKey (getFileHash path) q p sec = Some
            (with_timestamp
               (canvasDoc canvas q p sec (canvasToSVG canvas) (getFileHash path))
               (LocalISO (clock (world s) + 1)))) as Hc'
    by (by rewrite Ho).
  destruct (load_hit target q p sec path saved _ Hu' Hc') as [_ Hdec].
  by apply (Hdec href img).
Qed.

Lemma save_then_load_witness :
  let saved :=
    (saveCanvasAsSVG (browser := stand_in) sketch 1 1 (Some 0) (Some "doc.tex")
       (fresh (Some "u") quiet)).2 in
  loadCanvasFromSVG (browser := stand_in) sketch 1 1 (Some 0) (Some "doc.tex") saved
  = (Returns (true, sketch), saved).
Proof.
  intros saved.
  apply (save_then_load (browser := stand_in) sketch sketch 1 1 (Some 0)
           (Some "doc.tex") (fresh (Some "u") quiet)
           "data:image/png;base64,iVBORw0KGgo" "data:image/png;base64,iVBORw0KGgo");
    reflexivity.
Defined.

(** ** delete *)

Lemma scheduled_tail (n : nat) (w w' : World) :
  faults w' = tail (faults w) -> scheduled n w' = scheduled (S n) w.
Proof. unfold scheduled. intros ->. by destruct (faults w). Qed.

(** The two ways a delete ends. *)
Lemma delete_cases {browser : Browser} (q p : Z) (sec : option Z)
    (path : option string) (s : State) :
  let key := fullKey (getFileHash path) q p sec in
  let after := deleteCanvas q p sec path s in
  (scheduled 0 (world s) = None ->
     after.1 = Returns tt /\
     this after.2 = set_canvasData (delete key (canvasData (this s))) (this s) /\
     collection (world after.2) = delete key (collection (world s)) /\
     faults (world after.2) = tail (faults (world s))) /\
  (forall m, scheduled 0 (world s) = Some m ->
     after.1 = Throws (Error m) /\
     this after.2 = this s /\
     collection (world after.2) = collection (world s)).
Proof.
  intros key after. subst after. unfold deleteCanvas. unfold_method. split.
  - intros Hok. rewrite (await_resolves _ _ Hok). simpl. by destruct s as [[] []].
  - intros m Hko. rewrite (await_rejects _ _ _ Hko). simpl. by destruct s as [[] []].
Qed.

(** X4: a delete that goes through removes its key from the cache and from
    the collection and leaves every other key of both as it was; a delete
    whose remote call is refused throws that error and removes nothing. *)
Theorem delete_removes_one_key {browser : Browser} (q p : Z) (sec : option Z)
    (path : option string) (s : State) :
  let key := fullKey (getFileHash path) q p sec in
  let after := deleteCanvas q p sec path s in
  (scheduled 0 (world s) = None ->
     after.1 = Returns tt /\
     canvasData (this after.2) !! key = None /\
     collection (world after.2) !! key = None /\
     (forall k, k <> key ->
        canvasData (this after.2) !! k = canvasData (this s) !! k /\
        collection (world after.2) !! k = collection (world s) !! k)) /\
  (forall m, scheduled 0 (world s) = Some m ->
     after.1 = Throws (Error m) /\
     canvasData (this after.2) = canvasData (this s) /\
     collection (world after.2) = collection (world s)).
Proof.
  intros key after. destruct (delete_cases q p sec path s) as [Hok Hko].
  fold key after in Hok, Hko. split.
  - intros Hs. destruct (Hok Hs) as (Hr & Ho & Hc & _).
    rewrite Ho, Hc. simpl. split; [done|].
    split; [apply lookup_delete_eq|]. split; [apply lookup_delete_eq|].
    intros k Hne. by rewrite !lookup_delete_ne.
  - intros m Hs. destruct (Hko m Hs) as (Hr & Ho & Hc). by rewrite Ho.
Qed.

Lemma delete_removes_one_key_witness :
  let after :=
    deleteCanvas (browser := stand_in) 1 1 (Some 0) (Some "doc.tex")
      (caching sketch_record quiet) in
  after.1 = Returns tt /\ canvasData (this after.2) !! sketch_key = None.
Proof.
  intros after.
  destruct (proj1 (delete_removes_one_key (browser := stand_in) 1 1 (Some 0)
                     (Some "doc.tex") (caching sketch_record quiet)) eq_refl)
    as (Hr & Hk & _).
  split; [exact Hr|exact Hk].
Defined.

(** X5: saving a drawing and then deleting it leaves cache and collection
    as they were apart from that key, which is gone from both; if the key
    was in neither before, both are exactly as before the save. *)
Theorem save_then_delete {browser : Browser} (canvas : Canvas) (q p : Z)
    (sec : option Z) (path : option string) (s : State) :
  let key := fullKey (getFileHash path) q p sec in
  let saved := (saveCanvasAsSVG canvas q p sec path s).2 in
  let after := deleteCanvas q p sec path saved in
  Js.truthy (userId (this s)) = true ->
  scheduled 0 (world s) = None -> scheduled 1 (world s) = None ->
  after.1 = Returns tt /\
  canvasData (this after.2) = delete key (canvasData (this s)) /\
  collection (world after.2) = delete key (collection (world s)) /\
  (canvasData (this s) !! key = None -> collection (world s) !! key = None ->
   canvasData (this after.2) = canvasData (this s) /\
   collection (world after.2) = collection (world s)).
Proof.
  intros key saved after Hu Hok Hok'.
  assert (this saved
          = set_canvasData
              (<[key := with_timestamp
                          (canvasDoc canvas q p sec (canvasToSVG canvas) (getFileHash path))
                          (LocalISO (clock (world s) + 1))]> (canvasData (this s)))
              (this s)
          /\ collection (world saved)
             = <[key := resolve (clock (world s) + 1)
                          (canvasDoc canvas q p sec (canvasToSVG canvas) (getFileHash path))]>
                 (collection (world s))
          /\ scheduled 0 (world saved) = None) as (Ho & Hc & Hs).
  { subst saved. unfold saveCanvasAsSVG. unfold_method. rewrite Hu. simpl.
    rewrite (await_resolves _ _ Hok). simpl.
    split; [by destruct s as [[] []]|]. split; [done|].
    by rewrite (scheduled_tail 0 (world s)). }
  destruct (proj1 (delete_cases q p sec path saved) Hs) as (Hr & Ho' & Hc' & _).
  fold key after in Hr, Ho', Hc'.
  assert (canvasData (this after.2) = delete key (canvasData (this s))) as Hcache.
  { rewrite Ho', Ho. simpl. apply delete_insert_eq. }
  assert (collection (world after.2) = delete key (collection (world s))) as Hcoll.
  { rewrite Hc', Hc. apply delete_insert_eq. }
  repeat split; try done.
  - rewrite Hcache. by apply delete_id.
  - rewrite Hcoll. by apply delete_id.
Qed.

Lemma save_then_delete_witness :
  let saved :=
    (saveCanvasAsSVG (browser := stand_in) sketch 1 1 (Some 0) (Some "doc.tex")
       (fresh (Some "u") quiet)).2 in
  canvasData (this (deleteCanvas (browser := stand_in) 1 1 (Some 0)
                      (Some "doc.tex") saved).2) = ∅.
Proof.
  intros saved.
  destruct (save_then_delete (browser := stand_in) sketch 1 1 (Some 0)
              (Some "doc.tex") (fresh (Some "u") quiet) eq_refl eq_refl eq_refl)
    as (_ & _ & _ & Hsame).
  apply Hsame; apply lookup_empty.
Defined.

(** ** export and import *)

Lemma copy_of_snapshot (snapshot : gmap string CanvasDoc) :
  map_fold (fun id d acc => <[id := d]> acc) ∅ snapshot = snapshot.
Proof.
  change (Object_assign ∅ snapshot = snapshot).
  by rewrite Object_assign_union, (right_id_L ∅ (∪)).
Qed.

(** The two ways an export ends. *)
Lemma export_cases (s : State) :
  let after := exportAllCanvases s in
  let file :=
    {| exp_userId := userId (this s);
       exp_timestamp := Some (clock (world s) + 1)%N;
       exp_version := Some "2.0";
       exp_source := Some "firebase";
       canvases := Some (collection (world s)) |} in
  (scheduled 0 (world s) = None ->
     after.1 = Returns (size (collection (world s))) /\
     this after.2 = this s /\
     collection (world after.2) = collection (world s) /\
     downloads (world after.2) = downloads (world s) ++ [file] /\
     faults (world after.2) = tail (faults (world s)) /\
     clock (world after.2) = (clock (world s) + 1)%N) /\
  (forall m, scheduled 0 (world s) = Some m ->
     after.1 = Throws (Error m) /\
     this after.2 = this s /\
     collection (world after.2) = collection (world s) /\
     downloads (world after.2) = downloads (world s)).
Proof.
  intros after file. subst after file. unfold exportAllCanvases. unfold_method.
  split.
  - intros Hok. rewrite (await_resolves _ _ Hok). simpl.
    rewrite copy_of_snapshot. by destruct s as [[] []].
  - intros m Hko. rewrite (await_rejects _ _ _ Hko). simpl.
    by destruct s as [[] []].
Qed.

(** X6: an export that goes through returns the number of documents in the
    collection and hands the browser one file holding the user id and the
    whole collection; it never changes the storage object, hence the cache,
    nor the collection.  A refused read is rethrown and no file is made. *)
Theorem export_reads_only (s : State) :
  let after := exportAllCanvases s in
  this after.2 = this s /\
  collection (world after.2) = collection (world s) /\
  (scheduled 0 (world s) = None ->
     after.1 = Returns (size (collection (world s))) /\
     exists file,
       downloads (world after.2) = downloads (world s) ++ [file] /\
       canvases file = Some (collection (world s)) /\
       exp_userId file = userId (this s) /\
       exp_version file = Some "2.0" /\ exp_source file = Some "firebase") /\
  (forall m, scheduled 0 (world s) = Some m ->
     after.1 = Throws (Error m) /\
     downloads (world after.2) = downloads (world s)).
Proof.
  intros after. destruct (export_cases s) as [Hok Hko]. fold after in Hok, Hko.
  assert (this after.2 = this s /\ collection (world after.2) = collection (world s))
    as [Ho Hc].
  { destruct (scheduled 0 (world s)) as [m|] eqn:Hs.
    - by destruct (Hko m eq_refl) as (_ & ? & ? & _).
    - by destruct (Hok eq_refl) as (_ & ? & ? & _). }
  split; [done|]. split; [done|]. split.
  - intros Hs. destruct (Hok Hs) as (Hr & _ & _ & Hd & _).
    split; [done|]. by eexists.
  - intros m Hs. by destruct (Hko m Hs) as (Hr & _ & _ & Hd).
Qed.

Lemma export_reads_only_witness :
  (exportAllCanvases (caching sketch_record quiet)).1 = Returns 0%nat /\
  (exportAllCanvases (caching sketch_record (failing "offline"))).1
    = Throws (Error "offline").
Proof.
  split.
  - apply (proj1 (proj2 (proj2 (export_reads_only (caching sketch_record quiet))))
             eq_refl).
  - apply (proj2 (proj2 (proj2 (export_reads_only
                                  (caching sketch_record (failing "offline")))))
             "offline" eq_refl).
Defined.

(** What an import leaves of the fault schedule and the storage flags. *)
Lemma import_committed_rest (data : ExportData) (cs : gmap string CanvasDoc) (s : State) :
  let after := importCanvases (Readable (JsonObject data)) s in
  canvases data = Some cs -> scheduled 0 (world s) = None ->
  faults (world after.2) = tail (faults (world s)) /\
  userId (this after.2) = userId (this s) /\
  clock (world after.2) = (clock (world s) + 1)%N.
Proof.
  intros after Hcs Hok. subst after.
  unfold importCanvases, JSON_parse, get_canvases. unfold_method.
  rewrite Hcs. rewrite import_loop. simpl.
  by rewrite (await_resolves _ _ Hok).
Qed.

(** X7: importing the file an export has just produced returns the number
    the export returned, puts every exported record into the cache, and
    keeps the collection's key set, each document with its image. *)
Theorem export_then_import (s : State) (file : ExportData) :
  let exported := exportAllCanvases s in
  let imported := importCanvases (Readable (JsonObject file)) exported.2 in
  scheduled 0 (world s) = None -> scheduled 1 (world s) = None ->
  downloads (world exported.2) = downloads (world s) ++ [file] ->
  exported.1 = Returns (size (collection (world s))) /\
  imported.1 = Returns (size (collection (world s))) /\
  (forall k d, collection (world s) !! k = Some d ->
     canvasData (this imported.2) !! k = Some d /\
     exists d', collection (world imported.2) !! k = Some d' /\
                svg d' = svg d /\ fileId d' = fileId d /\
                dimensions d' = dimensions d) /\
  (forall k, collection (world s) !! k = None ->
     collection (world imported.2) !! k = None).
Proof.
  intros exported imported Hok Hok' Hfile.
  destruct (proj1 (export_cases s) Hok) as (Hr & Ho & Hc & Hd & Hf & _).
  fold exported in Hr, Ho, Hc, Hd, Hf.
  rewrite Hd in Hfile. apply app_inv_head in Hfile. injection Hfile as <-.
  assert (scheduled 0 (world exported.2) = None) as Hs
    by (by rewrite (scheduled_tail 0 (world s))).
  set (file := {| exp_userId := userId (this s);
                  exp_timestamp := Some (clock (world s) + 1)%N;
                  exp_version := Some "2.0";
                  exp_source := Some "firebase";
                  canvases := Some (collection (world s)) |}) in *.
  destruct (import_committed file (collection (world s)) exported.2 eq_refl Hs)
    as (Hr' & Hremote & Hcache & _).
  fold imported in Hr', Hremote, Hcache.
  split; [done|]. split; [done|]. split.
  - intros k d Hk. split.
    + rewrite Hcache. by apply lookup_union_Some_l.
    + rewrite Hremote, Hk. by eexists.
  - intros k Hk. by rewrite Hremote, Hk, Hc.
Qed.

Lemma export_then_import_witness :
  let s := fresh (Some "u")
             {| collection := {[ sketch_key := sketch_record ]}; faults := [];
                clock := 0; calls := []; console := []; downloads := [] |} in
  let file := {| exp_userId := Some "u"; exp_timestamp := Some 1%N;
                 exp_version := Some "2.0"; exp_source := Some "firebase";
                 canvases := Some {[ sketch_key := sketch_record ]} |} in
  (importCanvases (Readable (JsonObject file)) (exportAllCanvases s).2).1
  = Returns (size (collection (world s))).
Proof.
  intros s file.
  apply (export_then_import s file eq_refl eq_refl).
  vm_compute. reflexivity.
Defined.

(** X8: an import that fails changes nothing.  An unreadable file, a text
    that is not JSON and a batch the server rejects each reject the promise
    with their own message, and storage object and collection are as
    before. *)
Theorem import_failure_changes_nothing (s : State) :
  importCanvases Unreadable s = (Throws (Error "Failed to read file"), s) /\
  (forall m,
     importCanvases (Readable (SyntaxError m)) s
     = (Throws (Error ("Failed to import canvas data: " +:+ m)), s)) /\
  (forall data cs m,
     canvases data = Some cs -> scheduled 0 (world s) = Some m ->
     let after := importCanvases (Readable (JsonObject data)) s in
     after.1 = Throws (Error ("Failed to import canvas data: " +:+ m)) /\
     this after.2 = this s /\
     collection (world after.2) = collection (world s)).
Proof.
  split; [done|]. split; [done|].
  intros data cs m Hcs Hko after. subst after.
  unfold importCanvases, JSON_parse, get_canvases. unfold_method.
  rewrite Hcs. rewrite import_loop. simpl.
  rewrite (await_rejects _ _ _ Hko). simpl. by destruct s as [[] []].
Qed.

Lemma import_failure_changes_nothing_witness :
  let s := caching sketch_record (failing "quota exceeded") in
  let after := importCanvases (Readable (JsonObject with_a_and_b)) s in
  after.1 = Throws (Error "Failed to import canvas data: quota exceeded") /\
  this after.2 = this s.
Proof.
  intros s after.
  destruct (proj2 (proj2 (import_failure_changes_nothing s)) with_a_and_b _
              "quota exceeded" eq_refl eq_refl) as (Hr & Ho & _).
  split; [exact Hr|exact Ho].
Defined.

(** X9: importing the same file a second time returns the same count and
    leaves the cache and the key set of the collection as the first import
    left them. *)
Theorem import_twice (data : ExportData) (cs : gmap string CanvasDoc) (s : State) :
  let first := importCanvases (Readable (JsonObject data)) s in
  let second := importCanvases (Readable (JsonObject data)) first.2 in
  canvases data = Some cs ->
  scheduled 0 (world s) = None -> scheduled 1 (world s) = None ->
  second.1 = first.1 /\
  canvasData (this second.2) = canvasData (this first.2) /\
  dom (collection (world second.2)) = dom (collection (world first.2)).
Proof.
  intros first second Hcs Hok Hok'.
  destruct (import_committed data cs s Hcs Hok) as (Hr1 & Hc1 & Hd1 & _).
  destruct (import_committed_rest data cs s Hcs Hok) as (Hf1 & _).
  fold first in Hr1, Hc1, Hd1, Hf1.
  assert (scheduled 0 (world first.2) = None) as Hs
    by (by rewrite (scheduled_tail 0 (world s))).
  destruct (import_committed data cs first.2 Hcs Hs) as (Hr2 & Hc2 & Hd2 & _).
  fold second in Hr2, Hc2, Hd2.
  split; [by rewrite Hr1, Hr2|]. split.
  - rewrite Hd2, Hd1. rewrite (assoc_L (∪)). by rewrite (idemp_L (∪) cs).
  - apply set_eq. intros k. rewrite !elem_of_dom, Hc2.
    destruct (cs !! k) as [d|] eqn:Hk; [|done].
    rewrite Hc1, Hk. split; by eexists.
Qed.

Lemma import_twice_witness :
  let first := importCanvases (Readable (JsonObject with_a_and_b)) (fresh (Some "u") quiet) in
  let second := importCanvases (Readable (JsonObject with_a_and_b)) first.2 in
  canvasData (this second.2) = canvasData (this first.2).
Proof.
  intros first second.
  apply (import_twice with_a_and_b _ (fresh (Some "u") quiet) eq_refl eq_refl eq_refl).
Defined.

(** ** What no method does *)

(** Runs a method body through every way its awaits and lookups can go. *)
Ltac every_path :=
  unfold_method; unfold await; simpl;
  repeat (case_match; simpl in *; simplify_eq);
  simpl.

(** X10: no method of the storage class ever changes the user identity, sets
    the loading flag and leaves it set, or takes back that a bulk load has
    happened, whether its remote calls succeed or fail and whether it
    returns or throws. *)
Theorem storage_flags_kept {browser : Browser} (s : State) :
  let kept (s' : State) :=
    userId (this s') = userId (this s) /\
    (isLoading (this s) = false -> isLoading (this s') = false) /\
    (hasLoadedFromFirebase (this s) = true ->
     hasLoadedFromFirebase (this s') = true) in
  (forall canvas q p sec path, kept (saveCanvasAsSVG canvas q p sec path s).2) /\
  (forall canvas q p sec path, kept (loadCanvasFromSVG canvas q p sec path s).2) /\
  (forall path, kept (loadAllCanvasesForFile path s).2) /\
  kept (exportAllCanvases s).2 /\
  (forall file, kept (importCanvases file s).2) /\
  kept (clearAllCanvases s).2 /\
  (forall q p sec path, kept (deleteCanvas q p sec path s).2).
Proof.
  intros kept. subst kept. simpl.
  split; [|split; [|split; [|split; [|split; [|split]]]]].
  - intros. unfold saveCanvasAsSVG. every_path; done.
  - intros. unfold loadCanvasFromSVG, loadSVGToCanvas. every_path; done.
  - intros. unfold loadAllCanvasesForFile. every_path; done.
  - unfold exportAllCanvases. every_path; done.
  - intros [|[m| |data]]; unfold importCanvases, JSON_parse, get_canvases;
      unfold_method; try done.
    destruct (canvases data) as [cs|]; [|done].
    rewrite import_loop. simpl. unfold await.
    destruct (scheduled 0 (world s)); done.
  - unfold clearAllCanvases. every_path; done.
  - intros. unfold deleteCanvas. every_path; done.
Qed.

Lemma storage_flags_kept_witness :
  isLoading (this (loadAllCanvasesForFile (browser := stand_in) None
                     (fresh (Some "u") (failing "offline"))).2) = false /\
  hasLoadedFromFirebase
    (this (clearAllCanvases
             (loadAllCanvasesForFile (browser := stand_in) None
                (fresh (Some "u") quiet)).2).2) = true.
Proof.
  split.
  - apply (storage_flags_kept (browser := stand_in)
             (fresh (Some "u") (failing "offline"))). reflexivity.
  - apply (storage_flags_kept (browser := stand_in)
             (loadAllCanvasesForFile (browser := stand_in) None
                (fresh (Some "u") quiet)).2). reflexivity.
Defined.

Ltac load_footprint_case :=
  split; [done|];
  split; [first [by left | by right]|];
  split; [first [by left | right; split; [done|]; eexists; by split]|];
  by eexists _, _.

(** What a load can do to the world and to the cache. *)
Lemma load_footprint {browser : Browser} (canvas : Canvas) (q p : Z)
    (sec : option Z) (path : option string) (s : State) :
  let key := fullKey (getFileHash path) q p sec in
  let after := loadCanvasFromSVG canvas q p sec path s in
  collection (world after.2) = collection (world s) /\
  (calls (world after.2) = calls (world s) \/
   calls (world after.2) = calls (world s) ++ [(GetDoc key, this s)]) /\
  (canvasData (this after.2) = canvasData (this s) \/
   canvasData (this s) !! key = None /\
   exists d, collection (world s) !! key = Some d /\
             canvasData (this after.2) = <[key := d]> (canvasData (this s))) /\
  (exists found canvas',
     after.1 = Returns (found, canvas') /\ (found = false -> canvas' = canvas)).
Proof.
  intros key after. subst after key.
  unfold loadCanvasFromSVG, loadSVGToCanvas, fullKey.
  unfold_method. unfold await. simpl.
  destruct (Js.truthy (userId (this s))); simpl; [|by load_footprint_case].
  destruct (canvasData (this s) !! _) as [d|] eqn:Hc; simpl.
  - destruct (Js.truthy (Some (svg d))); simpl; [|by load_footprint_case].
    destruct (parseImageHref (svg d)) as [href|]; simpl; [|by load_footprint_case].
    destruct (loadImage href); simpl; by load_footprint_case.
  - destruct (scheduled 0 (world s)); simpl; [by load_footprint_case|].
    destruct (collection (world s) !! _) as [d|] eqn:Hr; simpl;
      [|by load_footprint_case].
    destruct (Js.truthy (Some (svg d))); simpl; [|by load_footprint_case].
    destruct (parseImageHref (svg d)) as [href|]; simpl; [|by load_footprint_case].
    destruct (loadImage href); simpl; by load_footprint_case.
Qed.

(** X11: a load never writes to the collection and never throws; it makes at
    most one remote call, a read of its own key; it never removes or
    replaces a cache entry; and when it answers false the surface is as it
    was. *)
Theorem load_reads_only {browser : Browser} (canvas : Canvas) (q p : Z)
    (sec : option Z) (path : option string) (s : State) :
  let key := fullKey (getFileHash path) q p sec in
  let after := loadCanvasFromSVG canvas q p sec path s in
  collection (world after.2) = collection (world s) /\
  (calls (world after.2) = calls (world s) \/
   calls (world after.2) = calls (world s) ++ [(GetDoc key, this s)]) /\
  (forall k d, canvasData (this s) !! k = Some d ->
               canvasData (this after.2) !! k = Some d) /\
  (exists found canvas',
     after.1 = Returns (found, canvas') /\ (found = false -> canvas' = canvas)).
Proof.
  intros key after.
  destruct (load_footprint canvas q p sec path s)
    as (Hcoll & Hcalls & Hcache & Hret).
  fold key after in Hcoll, Hcalls, Hcache, Hret.
  repeat split; try done.
  intros k d Hk. destruct Hcache as [->|(Hnone & d' & _ & ->)]; [done|].
  rewrite lookup_insert_ne; [done|]. intros <-. congruence.
Qed.

Lemma load_reads_only_witness :
  let s := caching sketch_record (failing "offline") in
  canvasData (this (loadCanvasFromSVG (browser := stand_in) sketch 2 1 None None s).2)
    !! sketch_key = Some sketch_record.
Proof.
  intros s.
  apply (load_reads_only (browser := stand_in) sketch 2 1 None None s).
  apply lookup_singleton_eq.
Defined.

(** What a bulk load that fetched the collection leaves behind. *)
Lemma loadAll_fetched {browser : Browser} (path : option string) (s : State) :
  let after := loadAllCanvasesForFile path s in
  Js.truthy (userId (this s)) = true -> scheduled 0 (world s) = None ->
  userId (this after.2) = userId (this s) /\
  canvasData (this after.2)
  = filter (fun kv => fileId kv.2 = getFileHash path) (collection (world s))
      ∪ canvasData (this s) /\
  hasLoadedFromFirebase (this after.2) = true /\
  collection (world after.2) = collection (world s) /\
  faults (world after.2) = tail (faults (world s)).
Proof.
  intros after Hu Hok. subst after.
  unfold loadAllCanvasesForFile. unfold_method. rewrite Hu. simpl.
  unfold await. simpl. rewrite Hok. simpl. by rewrite forEach_matching.
Qed.

(** What a bulk load does to the cache on any path. *)
Lemma loadAll_cache {browser : Browser} (path : option string) (s : State) :
  let after := loadAllCanvasesForFile path s in
  canvasData (this after.2) = canvasData (this s) \/
  canvasData (this after.2)
  = filter (fun kv => fileId kv.2 = getFileHash path) (collection (world s))
      ∪ canvasData (this s).
Proof.
  intros after. subst after.
  unfold loadAllCanvasesForFile. unfold_method. unfold await. simpl.
  destruct (Js.truthy (userId (this s))); simpl; [|by left].
  destruct (scheduled 0 (world s)); simpl; [by left|].
  right. by rewrite forEach_matching.
Qed.

(** What an import does to the cache on any path. *)
Lemma import_cache (file : File) (s : State) :
  let after := importCanvases file s in
  canvasData (this after.2) = canvasData (this s) \/
  exists cs, canvasData (this after.2) = cs ∪ canvasData (this s).
Proof.
  intros after. subst after.
  destruct file as [|[m| |data]]; unfold importCanvases, JSON_parse, get_canvases;
    unfold_method; try (by left).
  destruct (canvases data) as [cs|]; [|by left].
  rewrite import_loop. simpl. unfold await.
  destruct (scheduled 0 (world s)); simpl; [by left|].
  right. exists cs. by rewrite Object_assign_union.
Qed.

(** X12: the cache loses entries only through delete and clear: after a
    save, a load, a bulk load, an import or an export, on any path, every
    key that was cached is still cached. *)
Theorem cache_never_shrinks {browser : Browser} (s : State) (k : string) :
  is_Some (canvasData (this s) !! k) ->
  (forall canvas q p sec path,
     is_Some (canvasData (this (saveCanvasAsSVG canvas q p sec path s).2) !! k)) /\
  (forall canvas q p sec path,
     is_Some (canvasData (this (loadCanvasFromSVG canvas q p sec path s).2) !! k)) /\
  (forall path,
     is_Some (canvasData (this (loadAllCanvasesForFile path s).2) !! k)) /\
  (forall file, is_Some (canvasData (this (importCanvases file s).2) !! k)) /\
  is_Some (canvasData (this (exportAllCanvases s).2) !! k).
Proof.
  intros Hk.
  assert (forall (m : gmap string CanvasDoc),
            is_Some ((m ∪ canvasData (this s)) !! k)) as Hunion.
  { intros m. destruct Hk as [d Hd]. destruct (m !! k) as [d'|] eqn:Hm.
    - exists d'. by apply lookup_union_Some_l.
    - exists d. by rewrite lookup_union_r. }
  split; [|split; [|split; [|split]]].
  - intros. destruct (save_cases canvas q p sec path s)
      as [(_ & _ & Ho)|[(_ & _ & _ & Ho)|(_ & _ & _ & Ho)]]; rewrite Ho; try done.
    simpl. rewrite lookup_insert. by case_decide.
  - intros. destruct (load_footprint canvas q p sec path s)
      as (_ & _ & [->|(_ & d & _ & ->)] & _); [done|].
    rewrite lookup_insert. by case_decide.
  - intros. by destruct (loadAll_cache path s) as [->| ->].
  - intros. by destruct (import_cache file s) as [->|[cs ->]].
  - destruct (export_cases s) as [Hok Hko].
    destruct (scheduled 0 (world s)) as [m|].
    + by destruct (Hko m eq_refl) as (_ & -> & _).
    + by destruct (Hok eq_refl) as (_ & -> & _).
Qed.

Lemma cache_never_shrinks_witness :
  is_Some (canvasData
             (this (importCanvases (Readable (JsonObject with_a_and_b))
                      (caching sketch_record quiet)).2) !! sketch_key).
Proof.
  apply (cache_never_shrinks (browser := stand_in) (caching sketch_record quiet)
           sketch_key).
  exists sketch_record. apply lookup_singleton_eq.
Defined.

(** ** Bulk load, clear and load together *)

(** X13: after a bulk load of a document that fetched the collection, every
    remote record of that document is in the cache under its id, and a load
    of it makes no remote call. *)
Theorem bulk_load_then_load {browser : Browser} (canvas : Canvas) (q p : Z)
    (sec : option Z) (path : option string) (s : State) (d : CanvasDoc) :
  let key := fullKey (getFileHash path) q p sec in
  let loaded := (loadAllCanvasesForFile path s).2 in
  let after := loadCanvasFromSVG canvas q p sec path loaded in
  Js.truthy (userId (this s)) = true ->
  scheduled 0 (world s) = None ->
  collection (world s) !! key = Some d ->
  fileId d = getFileHash path ->
  canvasData (this loaded) !! key = Some d /\
  calls (world after.2) = calls (world loaded) /\
  this after.2 = this loaded /\
  (forall href img,
     Js.truthy (Some (svg d)) = true -> parseImageHref (svg d) = Some href ->
     loadImage href = Some img ->
     after.1 = Returns (true, drawImage canvas img)).
Proof.
  intros key loaded after Hu Hok Hr Hfile.
  destruct (loadAll_fetched path s Hu Hok) as (Hu' & Hcache & _).
  fold loaded in Hu', Hcache.
  assert (canvasData (this loaded) !! key = Some d) as Hk.
  { rewrite Hcache. apply lookup_union_Some_l.
    by apply map_lookup_filter_Some. }
  rewrite <- Hu' in Hu.
  destruct (load_hit canvas q p sec path loaded d Hu Hk) as [(Ho & _ & Hc) Hdec].
  fold after in Ho, Hc, Hdec.
  repeat split; try done.
  intros href img Ht Hp Hl. by rewrite (Hdec href img Ht Hp Hl).
Qed.

Lemma bulk_load_then_load_witness :
  let s := fresh (Some "u")
             {| collection := {[ sketch_key := sketch_record ]}; faults := [];
                clock := 0; calls := []; console := []; downloads := [] |} in
  let loaded := (loadAllCanvasesForFile (browser := stand_in) (Some "doc.tex") s).2 in
  calls (world (loadCanvasFromSVG (browser := stand_in) sketch 1 1 (Some 0)
                  (Some "doc.tex") loaded).2) = calls (world loaded).
Proof.
  intros s loaded.
  refine (proj1 (proj2 (bulk_load_then_load (browser := stand_in) sketch 1 1
                          (Some 0) (Some "doc.tex") s sketch_record
                          eq_refl eq_refl _ eq_refl))).
  apply lookup_singleton_eq.
Defined.

(** What a clear that committed leaves behind. *)
Lemma clearAll_committed (s : State) :
  let after := clearAllCanvases s in
  scheduled 0 (world s) = None -> scheduled 1 (world s) = None ->
  after.1 = Returns tt /\
  this after.2 = set_canvasData ∅ (this s) /\
  collection (world after.2) = ∅ /\
  faults (world after.2) = tail (tail (faults (world s))) /\
  calls (world after.2)
  = calls (world s) ++ [(GetDocs, this s);
                        (BatchCommit (size (collection (world s))), this s)].
Proof.
  intros after Hok Hok'. subst after. unfold clearAllCanvases. unfold_method.
  rewrite (await_resolves _ _ Hok). simpl.
  rewrite await_resolves by (simpl; by rewrite scheduled_round_trip).
  simpl. rewrite commit_deletes_all, length_fmap, length_map_to_list.
  rewrite <- (assoc_L (++)). by destruct s as [[] []].
Qed.

(** A load that misses the cache and finds no remote document. *)
Lemma load_absent {browser : Browser} (canvas : Canvas) (q p : Z)
    (sec : option Z) (path : option string) (s : State) :
  let key := fullKey (getFileHash path) q p sec in
  let after := loadCanvasFromSVG canvas q p sec path s in
  Js.truthy (userId (this s)) = true ->
  canvasData (this s) !! key = None ->
  scheduled 0 (world s) = None ->
  collection (world s) !! key = None ->
  after.1 = Returns (false, canvas) /\ this after.2 = this s /\
  calls (world after.2) = calls (world s) ++ [(GetDoc key, this s)].
Proof.
  intros key after Hu Hc Hok Hr. subst after.
  unfold loadCanvasFromSVG, loadSVGToCanvas. unfold_method. rewrite Hu. simpl.
  change (getFileHash path +:+ "_" +:+ getCanvasKey q p sec) with key.
  rewrite Hc, (await_resolves _ _ Hok). simpl. rewrite Hr. simpl.
  by destruct s as [[] []].
Qed.

(** X14: once a clear has committed, nothing can be loaded: a load of any
    key misses the cache, reads the collection once, finds nothing and
    answers false with the surface untouched. *)
Theorem clear_then_load {browser : Browser} (canvas : Canvas) (q p : Z)
    (sec : option Z) (path : option string) (s : State) :
  let key := fullKey (getFileHash path) q p sec in
  let cleared := (clearAllCanvases s).2 in
  let after := loadCanvasFromSVG canvas q p sec path cleared in
  Js.truthy (userId (this s)) = true ->
  scheduled 0 (world s) = None -> scheduled 1 (world s) = None ->
  scheduled 2 (world s) = None ->
  after.1 = Returns (false, canvas) /\
  calls (world after.2) = calls (world cleared) ++ [(GetDoc key, this cleared)] /\
  canvasData (this after.2) = ∅.
Proof.
  intros key cleared after Hu Hok Hok' Hok''.
  destruct (clearAll_committed s Hok Hok') as (_ & Ho & Hc & Hf & _).
  fold cleared in Ho, Hc, Hf.
  assert (scheduled 0 (world cleared) = None) as Hs.
  { unfold scheduled in *. rewrite Hf.
    destruct (faults (world s)) as [|? [|? ?]]; done. }
  destruct (load_absent canvas q p sec path cleared) as (Hr & Ho' & Hcalls).
  - by rewrite Ho.
  - rewrite Ho. apply lookup_empty.
  - exact Hs.
  - rewrite Hc. apply lookup_empty.
  - fold key after in Hr, Ho', Hcalls. split; [done|]. split; [done|].
    by rewrite Ho', Ho.
Qed.

Lemma clear_then_load_witness :
  (loadCanvasFromSVG (browser := stand_in) sketch 1 1 (Some 0) (Some "doc.tex")
     (clearAllCanvases (caching sketch_record quiet)).2).1
  = Returns (false, sketch).
Proof.
  apply (clear_then_load (browser := stand_in) sketch 1 1 (Some 0) (Some "doc.tex")
           (caching sketch_record quiet)); reflexivity.
Defined.

(* ===================================================================== *)
(** * Further properties of the carousel *)
(* ===================================================================== *)

Lemma nextSection_index (app : QuizApp) :
  0 <= currentSectionIndex app < sectionCount app ->
  currentSectionIndex (nextSection app)
  = Z.min (currentSectionIndex app + 1) (sectionCount app - 1).
Proof.
  intros Hin. unfold nextSection. fold (sectionCount app).
  case_match; [|tests_to_Z; lia].
  rewrite showSection_index. case_match; tests_to_Z; lia.
Qed.

Lemma previousSection_index (app : QuizApp) :
  0 <= currentSectionIndex app < sectionCount app ->
  currentSectionIndex (previousSection app)
  = Z.max (currentSectionIndex app - 1) 0.
Proof.
  intros Hin. unfold previousSection.
  case_match; [|tests_to_Z; lia].
  rewrite showSection_index. case_match; tests_to_Z; lia.
Qed.

Lemma step_count (app : QuizApp) (t : Transition) :
  sectionCount (step app t) = sectionCount app.
Proof. unfold sectionCount. by rewrite step_sections. Qed.

(** X15: the buttons tell the truth.  With the index inside the sections,
    a disabled previous (next) button is exactly the case in which
    [previousSection] ([nextSection]) changes nothing, and an enabled one
    moves the index by one; the counter shows the index counted from 1 and
    the number of sections. *)
Theorem controls_agree_with_navigation (app : QuizApp) :
  let c := updateCarouselControls app in
  0 <= currentSectionIndex app < sectionCount app ->
  (prevDisabled c = true -> previousSection app = app) /\
  (prevDisabled c = false ->
     currentSectionIndex (previousSection app) = currentSectionIndex app - 1) /\
  (nextDisabled c = true -> nextSection app = app) /\
  (nextDisabled c = false ->
     currentSectionIndex (nextSection app) = currentSectionIndex app + 1) /\
  counterText c
  = Js.toString (currentSectionIndex app + 1) +:+ " / "
      +:+ Js.toString (sectionCount app).
Proof.
  intros c Hin. unfold c, updateCarouselControls. simpl.
  fold (sectionCount app).
  split; [|split; [|split; [|split; [|done]]]].
  - intros H0%Z.eqb_eq. unfold previousSection. by rewrite H0.
  - intros Hne%Z.eqb_neq. rewrite previousSection_index by done. lia.
  - intros Hl%Z.eqb_eq. unfold nextSection. fold (sectionCount app).
    case_match; [tests_to_Z; lia|done].
  - intros Hne%Z.eqb_neq. rewrite nextSection_index by done. lia.
Qed.

Lemma controls_agree_with_navigation_witness :
  let app := renderSectionCarousel three_sections new_QuizApp in
  previousSection app = app /\
  currentSectionIndex (nextSection app) = 1.
Proof.
  intros app.
  destruct (controls_agree_with_navigation app) as (Hp & _ & _ & Hn & _);
    [by vm_compute|].
  split; [by apply Hp|by apply Hn].
Defined.

Lemma repeat_next_index (k : nat) (app : QuizApp) :
  0 <= currentSectionIndex app < sectionCount app ->
  currentSectionIndex (run app (replicate k Next))
  = Z.min (currentSectionIndex app + Z.of_nat k) (sectionCount app - 1).
Proof.
  revert app. induction k as [|k IH]; intros app Hin.
  - simpl. lia.
  - change (run app (replicate (S k) Next))
      with (run (nextSection app) (replicate k Next)).
    pose proof (step_in_range app Next Hin) as Hin'.
    pose proof (step_count app Next) as Hn. simpl in Hin', Hn.
    rewrite IH by (by rewrite Hn). rewrite Hn, nextSection_index by done. lia.
Qed.

Lemma repeat_previous_index (k : nat) (app : QuizApp) :
  0 <= currentSectionIndex app < sectionCount app ->
  currentSectionIndex (run app (replicate k Previous))
  = Z.max (currentSectionIndex app - Z.of_nat k) 0.
Proof.
  revert app. induction k as [|k IH]; intros app Hin.
  - simpl. lia.
  - change (run app (replicate (S k) Previous))
      with (run (previousSection app) (replicate k Previous)).
    pose proof (step_in_range app Previous Hin) as Hin'.
    pose proof (step_count app Previous) as Hn. simpl in Hin', Hn.
    rewrite IH by (by rewrite Hn). rewrite previousSection_index by done. lia.
Qed.

(** X16: every section can be reached.  With the index inside the sections,
    k presses of next end at min(index + k, n - 1) and k presses of previous
    at max(index - k, 0); so a section j is reached from index i by
    |j - i| presses in its direction, and by one click on its tab. *)
Theorem every_section_reachable (app : QuizApp) (j : Z) :
  let i := currentSectionIndex app in
  let n := sectionCount app in
  0 <= i < n ->
  (forall k, currentSectionIndex (run app (replicate k Next))
             = Z.min (i + Z.of_nat k) (n - 1)) /\
  (forall k, currentSectionIndex (run app (replicate k Previous))
             = Z.max (i - Z.of_nat k) 0) /\
  (0 <= j < n ->
     currentSectionIndex (showSection j app) = j /\
     (i <= j ->
        currentSectionIndex (run app (replicate (Z.to_nat (j - i)) Next)) = j) /\
     (j <= i ->
        currentSectionIndex (run app (replicate (Z.to_nat (i - j)) Previous)) = j)).
Proof.
  intros i n Hin.
  split; [intros k; by apply repeat_next_index|].
  split; [intros k; by apply repeat_previous_index|].
  intros Hj. split; [|split].
  - rewrite showSection_index. case_match; [tests_to_Z; lia|done].
  - intros Hle. rewrite repeat_next_index by done. fold i n. lia.
  - intros Hle. rewrite repeat_previous_index by done. fold i. lia.
Qed.

Lemma every_section_reachable_witness :
  let app := renderSectionCarousel three_sections new_QuizApp in
  currentSectionIndex (run app [Next; Next]) = 2 /\
  currentSectionIndex (run app (replicate 9 Next)) = 2.
Proof.
  intros app.
  destruct (every_section_reachable app 2) as (Hnext & _ & Hj); [by vm_compute|].
  split.
  - apply (proj1 (proj2 (Hj ltac:(by vm_compute)))). by vm_compute.
  - apply (Hnext 9%nat).
Defined.

(** One request either changes nothing or shows a section inside the
    document and schedules the initialisation of exactly that section. *)
Lemma step_timers (app : QuizApp) (t : Transition) :
  step app t = app \/
  exists i, 0 <= i < sectionCount app /\
            currentSectionIndex (step app t) = i /\
            timers (step app t) = timers app ++ [i].
Proof.
  assert (forall i, showSection i app = app \/
            exists i', 0 <= i' < sectionCount app /\
              currentSectionIndex (showSection i app) = i' /\
              timers (showSection i app) = timers app ++ [i']) as Hshow.
  { intros i. unfold showSection. fold (sectionCount app).
    case_match; [by left|]. right. exists i. simpl. tests_to_Z. split; [lia|done]. }
  destruct t as [i| |]; simpl; unfold previousSection, nextSection;
    try case_match; auto.
Qed.

(** X17: the canvases that get initialised are those of the section on
    show.  After a document with at least one section has been rendered,
    whatever requests follow, every initialisation scheduled since is for a
    section of the document, and the last one scheduled is for the current
    section. *)
Theorem initialisation_follows_index (sections : list ParsedSection)
    (app : QuizApp) (ts : list Transition) :
  let app' := run (renderSectionCarousel sections app) ts in
  sections <> [] ->
  exists added,
    timers app' = timers app ++ added /\
    Forall (fun i => 0 <= i < Z.of_nat (length sections)) added /\
    last added = Some (currentSectionIndex app').
Proof.
  intros app' Hne. subst app'.
  set (start := renderSectionCarousel sections app).
  assert (getSections start = sections) as Hs
    by (unfold start, renderSectionCarousel; by rewrite showSection_sections).
  assert (0 < Z.of_nat (length sections)) as Hpos
    by (destruct sections; [done|simpl length; lia]).
  assert (timers start = timers app ++ [0; 0] /\ currentSectionIndex start = 0)
    as [Ht0 Hi0].
  { unfold start, renderSectionCarousel, showSection. cbn [getSections].
    case_match; [tests_to_Z; lia|]. simpl. by rewrite <- (assoc_L (++)). }
  assert (forall ts a added,
            getSections a = sections ->
            timers a = timers app ++ added ->
            Forall (fun i => 0 <= i < Z.of_nat (length sections)) added ->
            last added = Some (currentSectionIndex a) ->
            exists added',
              timers (run a ts) = timers app ++ added' /\
              Forall (fun i => 0 <= i < Z.of_nat (length sections)) added' /\
              last added' = Some (currentSectionIndex (run a ts))) as Hrun.
  { clear. intros ts. induction ts as [|t ts IH]; intros a added Hs Ht Hall Hlast.
    - exists added. by repeat split.
    - change (run a (t :: ts)) with (run (step a t) ts).
      destruct (step_timers a t) as [->|(i & Hi & Hidx & Htm)]; [by eapply IH|].
      apply (IH (step a t) (added ++ [i])).
      + by rewrite step_sections.
      + by rewrite Htm, Ht, (assoc_L (++)).
      + apply Forall_app. split; [done|]. apply Forall_singleton.
        unfold sectionCount in Hi. by rewrite Hs in Hi.
      + by rewrite last_snoc, Hidx. }
  apply (Hrun ts start [0; 0]); try done.
  - repeat constructor; lia.
  - by rewrite Hi0.
Qed.

Lemma initialisation_follows_index_witness :
  exists added,
    timers (run (renderSectionCarousel three_sections new_QuizApp) [Next; GoTo 5])
    = timers new_QuizApp ++ added /\
    Forall (fun i => 0 <= i < 3) added /\
    last added = Some 1.
Proof.
  apply (initialisation_follows_index three_sections new_QuizApp [Next; GoTo 5]).
  discriminate.
Defined.

(* ===================================================================== *)
(** * Properties of FirebaseAuth *)
(* ===================================================================== *)

Section AuthFacts.
Import Auth.

(** ** The matcher agrees with what the expression denotes *)

Lemma Matches_Seq_inv (r1 r2 : Regex) (s : ustring) :
  Matches (Seq r1 r2) s ->
  exists s1 s2, s = s1 ++ s2 /\ Matches r1 s1 /\ Matches r2 s2.
Proof. inversion 1; subst. by eauto. Qed.

Lemma Matches_Alt_inv (r1 r2 : Regex) (s : ustring) :
  Matches (Alt r1 r2) s -> Matches r1 s \/ Matches r2 s.
Proof. inversion 1; subst; by eauto. Qed.

Lemma Matches_Class_inv (p : N -> bool) (s : ustring) :
  Matches (Class p) s -> exists c, s = [c] /\ p c = true.
Proof. inversion 1; subst. by eauto. Qed.

Lemma Matches_Eps_inv (s : ustring) : Matches Eps s -> s = [].
Proof. by inversion 1. Qed.

Lemma Matches_Fail_inv (s : ustring) : ~ Matches Fail s.
Proof. inversion 1. Qed.

Lemma nullable_Matches (r : Regex) : nullable r = true <-> Matches r [].
Proof.
  induction r as [| |p|r1 IH1 r2 IH2|r1 IH1 r2 IH2|r IH]; simpl.
  - split; [done|by intros ?%Matches_Fail_inv].
  - split; [constructor|done].
  - split; [done|]. by intros (c & ? & _)%Matches_Class_inv.
  - rewrite andb_true_iff, IH1, IH2. split.
    + intros [H1 H2]. apply (MSeq _ _ [] [] H1 H2).
    + intros (s1 & s2 & Heq & H1 & H2)%Matches_Seq_inv.
      symmetry in Heq. apply app_eq_nil in Heq as [-> ->]. done.
  - rewrite orb_true_iff, IH1, IH2. split.
    + intros [?|?]; [by apply MAltL|by apply MAltR].
    + apply Matches_Alt_inv.
  - split; [constructor|done].
Qed.

Lemma Matches_Star_cons (r : Regex) (c : N) (s : ustring) :
  Matches (Star r) (c :: s) ->
  exists s1 s2, s = s1 ++ s2 /\ Matches r (c :: s1) /\ Matches (Star r) s2.
Proof.
  intros H. remember (Star r) as r' eqn:Hr. remember (c :: s) as s' eqn:Hs.
  revert s Hs. induction H as [| | | | | |r0 s1 s2 H1 _ H2 IH2]; try done.
  injection Hr as ->. intros s Hs. destruct s1 as [|c1 s1].
  - by apply IH2.
  - simpl in Hs. injection Hs as -> <-. by exists s1, s2.
Qed.

Lemma deriv_Matches (r : Regex) (c : N) (s : ustring) :
  Matches (deriv c r) s <-> Matches r (c :: s).
Proof.
  revert s. induction r as [| |p|r1 IH1 r2 IH2|r1 IH1 r2 IH2|r IH]; intros s; simpl.
  - split; by intros ?%Matches_Fail_inv.
  - split; [by intros ?%Matches_Fail_inv|by intros ?%Matches_Eps_inv].
  - destruct (p c) eqn:Hp; split.
    + intros ->%Matches_Eps_inv. by constructor.
    + intros (c' & [= -> ->] & _)%Matches_Class_inv. constructor.
    + by intros ?%Matches_Fail_inv.
    + intros (c' & [= -> ->] & ?)%Matches_Class_inv. congruence.
  - assert (Matches (Seq (deriv c r1) r2) s ->
            Matches (Seq r1 r2) (c :: s)) as Hleft.
    { intros (s1 & s2 & -> & H1 & H2)%Matches_Seq_inv.
      apply IH1 in H1. apply (MSeq _ _ (c :: s1) s2 H1 H2). }
    assert (Matches (Seq r1 r2) (c :: s) ->
            Matches (Seq (deriv c r1) r2) s \/
            (Matches r1 [] /\ Matches (deriv c r2) s)) as Hinv.
    { intros (s1 & s2 & Heq & H1 & H2)%Matches_Seq_inv.
      destruct s1 as [|c1 s1]; simpl in Heq.
      - right. split; [done|]. apply IH2. by rewrite Heq.
      - injection Heq as <- ->. left. constructor; [by apply IH1|done]. }
    destruct (nullable r1) eqn:Hn; split.
    + intros [?|?]%Matches_Alt_inv; [by apply Hleft|].
      apply (MSeq _ _ [] (c :: s)); [by apply nullable_Matches|by apply IH2].
    + intros H. destruct (Hinv H) as [?|[_ ?]]; [by apply MAltL|by apply MAltR].
    + apply Hleft.
    + intros H. destruct (Hinv H) as [?|[Hnil _]]; [done|].
      apply nullable_Matches in Hnil. congruence.
  - split.
    + intros [?|?]%Matches_Alt_inv; [apply MAltL; by apply IH1|apply MAltR; by apply IH2].
    + intros [?|?]%Matches_Alt_inv; [apply MAltL; by apply IH1|apply MAltR; by apply IH2].
  - split.
    + intros (s1 & s2 & -> & H1 & H2)%Matches_Seq_inv.
      apply IH in H1. apply (MStarS _ (c :: s1) s2 H1 H2).
    + intros (s1 & s2 & -> & H1 & H2)%Matches_Star_cons.
      constructor; [by apply IH|done].
Qed.

Lemma test_Matches (r : Regex) (s : ustring) : test r s = true <-> Matches r s.
Proof.
  revert r. induction s as [|c s IH]; intros r; simpl.
  - apply nullable_Matches.
  - rewrite IH. apply deriv_Matches.
Qed.

Lemma Matches_Star_Class (p : N -> bool) (s : ustring) :
  Matches (Star (Class p)) s <-> Forall (fun c => p c = true) s.
Proof.
  split.
  - intros H. remember (Star (Class p)) as r eqn:Hr.
    induction H as [| | | | | |r0 s1 s2 H1 _ H2 IH2]; try done.
    injection Hr as ->. apply Matches_Class_inv in H1 as (c & -> & Hc).
    constructor; [done|by apply IH2].
  - induction 1 as [|c s Hc _ IH]; [constructor|].
    apply (MStarS _ [c] s); [by constructor|done].
Qed.

Lemma Matches_Plus_Class (p : N -> bool) (s : ustring) :
  Matches (Plus (Class p)) s <-> s <> [] /\ Forall (fun c => p c = true) s.
Proof.
  unfold Plus. split.
  - intros (s1 & s2 & -> & (c & -> & Hc)%Matches_Class_inv & H2)%Matches_Seq_inv.
    split; [done|]. constructor; [done|by apply Matches_Star_Class].
  - intros [Hne Hall]. destruct Hall as [|c s Hc Hall]; [done|].
    apply (MSeq _ _ [c] s); [by constructor|by apply Matches_Star_Class].
Qed.

Lemma Matches_Class_eq (k : N) (s : ustring) :
  Matches (Class (fun c => c =? k)%N) s <-> s = [k].
Proof.
  split.
  - intros (c & -> & Hc)%Matches_Class_inv. by apply N.eqb_eq in Hc as ->.
  - intros ->. constructor. apply N.eqb_refl.
Qed.

Lemma isValidEmail_shape_aux (email : ustring) :
  isValidEmail email = true <->
  exists local domain last,
    email = local ++ 64%N :: domain ++ 46%N :: last /\
    local <> [] /\ domain <> [] /\ last <> [] /\
    Forall (fun c => not_space_or_at c = true) (local ++ domain ++ last).
Proof.
  unfold isValidEmail. rewrite test_Matches. unfold emailRegex. split.
  - intros (l & ? & -> & Hl & (at_ & ? & -> & Hat &
             (d & ? & -> & Hd & (dot & t & -> & Hdot & Ht)%Matches_Seq_inv)
               %Matches_Seq_inv)%Matches_Seq_inv)%Matches_Seq_inv.
    apply Matches_Class_eq in Hat as ->. apply Matches_Class_eq in Hdot as ->.
    apply Matches_Plus_Class in Hl as [? ?], Hd as [? ?], Ht as [? ?].
    exists l, d, t. repeat split; try done.
    rewrite !Forall_app. done.
  - intros (l & d & t & -> & Hl & Hd & Ht & Hall).
    rewrite !Forall_app in Hall. destruct Hall as (Hal & Had & Hat).
    apply (MSeq _ _ l); [by apply Matches_Plus_Class|].
    apply (MSeq _ _ [64%N]); [by apply Matches_Class_eq|].
    apply (MSeq _ _ d); [by apply Matches_Plus_Class|].
    apply (MSeq _ _ [46%N]); [by apply Matches_Class_eq|].
    by apply Matches_Plus_Class.
Qed.

(** X18: the email test accepts exactly the strings made of a local part,
    an at sign, a domain part, a dot and a last part, the three parts
    non-empty and free of white space and at signs. *)
Theorem isValidEmail_shape (email : ustring) :
  isValidEmail email = true <->
  exists local domain last,
    email = local ++ 64%N :: domain ++ 46%N :: last /\
    local <> [] /\ domain <> [] /\ last <> [] /\
    Forall (fun c => not_space_or_at c = true) (local ++ domain ++ last).
Proof. apply isValidEmail_shape_aux. Qed.

(** ** trim *)

Lemma trimStart_id (c : N) (s : ustring) :
  is_white c = false -> trimStart (c :: s) = c :: s.
Proof. intros Hc. simpl. by rewrite Hc. Qed.

Lemma not_space_or_at_white (c : N) :
  not_space_or_at c = true -> is_white c = false.
Proof.
  unfold not_space_or_at. intros H%negb_true_iff.
  by apply orb_false_iff in H as [? _].
Qed.

Lemma trim_no_white_ends (c z : N) (m : ustring) :
  is_white c = false -> is_white z = false ->
  trim (c :: m ++ [z]) = c :: m ++ [z].
Proof.
  intros Hc Hz. unfold trim, trimEnd. rewrite trimStart_id by done.
  change (c :: m ++ [z]) with ((c :: m) ++ [z]).
  rewrite rev_unit, trimStart_id by done.
  change (z :: rev (c :: m)) with ([z] ++ rev (c :: m)).
  by rewrite rev_app_distr, rev_involutive.
Qed.

(** A string that passes the email test starts and ends with a character
    that is not white space, so [trim] returns it as it is. *)
Lemma trim_valid (email : ustring) :
  isValidEmail email = true -> trim email = email.
Proof.
  intros (l & d & t & -> & Hl & _ & Ht & Hall)%isValidEmail_shape_aux.
  rewrite !Forall_app in Hall. destruct Hall as (Hal & _ & Hat).
  destruct l as [|c l]; [done|]. apply Forall_cons in Hal as [Hc _].
  assert (exists t' z, t = t' ++ [z]) as (t' & z & ->).
  { clear -Ht. induction t as [|z t' _] using rev_ind; [done|by eauto]. }
  rename t' into t.
  apply Forall_app in Hat as [_ Hz]. apply Forall_cons in Hz as [Hz _].
  replace ((c :: l) ++ 64%N :: d ++ 46%N :: t ++ [z])
    with (c :: (l ++ 64%N :: d ++ 46%N :: t) ++ [z]).
  - apply trim_no_white_ends; by apply not_space_or_at_white.
  - simpl. f_equal. rewrite <- (assoc_L (++)). simpl. f_equal. f_equal.
    by rewrite <- (assoc_L (++)).
Qed.

(** ** The methods that call the SDK *)

Section Methods.
Context {User : Type}.
Implicit Types (a : FirebaseAuth User) (email password : ustring).

Lemma forEach_frame (steps k : nat) (u : option User) a :
  let a' := forEach steps k u a in
  currentUser a' = currentUser a /\ replies a' = replies a /\
  requests a' = requests a /\ console a' = console a /\
  closures a' = closures a.
Proof.
  revert k a. induction steps as [|steps IH]; intros k a; simpl; [done|].
  destruct (authStateListeners a !! k) as [[i|w]|]; [| |by apply IH].
  - destruct (IH (S k) (invoke (External i) u a)) as (-> & -> & -> & -> & ->). done.
  - destruct (IH (S k) (invoke (Waiter w) u a)) as (-> & -> & -> & -> & ->). done.
Qed.

Lemma authStateChanged_frame (u : option User) a :
  let a' := authStateChanged u a in
  currentUser a' = u /\ replies a' = replies a /\
  requests a' = requests a /\ console a' = console a.
Proof.
  unfold authStateChanged.
  destruct (forEach_frame (length (authStateListeners (set_currentUser u a))) 0 u
              (set_currentUser u a)) as (-> & -> & -> & -> & _).
  done.
Qed.

(** What awaiting a request does, by the reply that is next. *)
Lemma await_cases (r : Request) a :
  let after := await r a in
  requests after.2 = requests a ++ [r] /\
  replies after.2 = tail (replies a) /\
  console after.2 = console a /\
  match replies a with
  | Rejected e :: _ => after.1 = inl e /\ currentUser after.2 = currentUser a
  | Fulfilled (Some u) :: _ => after.1 = inr tt /\ currentUser after.2 = u
  | _ => after.1 = inr tt /\ currentUser after.2 = currentUser a
  end.
Proof.
  unfold await. destruct (replies a) as [|[e|[u|]] rest] eqn:Hr; simpl.
  - by rewrite Hr.
  - by rewrite Hr.
  - destruct (authStateChanged_frame u (sent r a)) as (-> & -> & -> & ->).
    simpl. by rewrite Hr.
  - by rewrite Hr.
Qed.

Ltac run_auth :=
  unfold login, register, logout, resetPassword, Auth.catch, raise,
    Auth.console_error, get_currentUser, put_currentUser, mbind, A_bind, mret,
    A_ret; simpl.

(** X19: login checks its arguments before it calls the SDK.  With an empty
    email or password, or an email that fails the test, it throws the
    matching message and sends nothing; otherwise it sends exactly one
    sign-in request, carrying the email as given (trimming changes nothing
    on an email that passed the test). *)
Theorem login_checks_first email password a :
  (empty email || empty password = true ->
     login email password a
     = (inl (plain "Email and password are required"), logged "Login error:" a)) /\
  (empty email || empty password = false -> isValidEmail email = false ->
     login email password a
     = (inl (plain "Invalid email format"), logged "Login error:" a)) /\
  (empty email || empty password = false -> isValidEmail email = true ->
     requests (login email password a).2 = requests a ++ [SignIn email password]).
Proof.
  split; [|split].
  - intros He. run_auth. by rewrite He.
  - intros He Hv. run_auth. by rewrite He, Hv.
  - intros He Hv. run_auth. rewrite He, Hv. simpl. rewrite (trim_valid _ Hv).
    destruct (await_cases (SignIn email password) a) as (Hreq & _ & _ & Hcase).
    destruct (await (SignIn email password) a) as [[e|[]] a'] eqn:Ha;
      simpl in *; [|done].
    by repeat case_match.
Qed.

(** X20: what a login with a well-formed email and a password gives.  A
    rejection is rethrown as a fresh error whose message is chosen by the
    Firebase code when it is one of the five the method knows; for every
    other code, and for an error without a code, it is the SDK's own
    message, or the fallback when that is empty; the current user stays as
    it was.  A fulfilled sign-in
    returns the user the auth listener has set by then, which is the
    previous current user if the listener has not run. *)
Theorem login_outcomes email password a :
  empty email || empty password = false -> isValidEmail email = true ->
  (forall e rest, replies a = Rejected e :: rest ->
     currentUser (login email password a).2 = currentUser a /\
     exists m, (login email password a).1 = inl (plain m) /\
       (code e = Some "auth/user-not-found" ->
          m = "No account found with this email address") /\
       (code e = Some "auth/wrong-password" -> m = "Incorrect password") /\
       (code e = Some "auth/too-many-requests" ->
          m = "Too many failed attempts. Please try again later") /\
       (code e = Some "auth/user-disabled" -> m = "This account has been disabled") /\
       (code e = Some "auth/invalid-email" -> m = "Invalid email address") /\
       (code e <> Some "auth/user-not-found" ->
        code e <> Some "auth/wrong-password" ->
        code e <> Some "auth/too-many-requests" ->
        code e <> Some "auth/user-disabled" ->
        code e <> Some "auth/invalid-email" ->
          m = message_or e "Login failed. Please try again.")) /\
  (forall u rest, replies a = Fulfilled (Some u) :: rest ->
     (login email password a).1 = inr u) /\
  (replies a = [] \/ (exists rest, replies a = Fulfilled None :: rest) ->
     (login email password a).1 = inr (currentUser a)).
Proof.
  intros He Hv.
  pose proof (await_cases (SignIn (trim email) password) a) as Hawait.
  split; [|split].
  - intros e rest Hr. rewrite Hr in Hawait. destruct Hawait as (_ & _ & _ & Hres & Hu).
    run_auth. rewrite He, Hv. simpl.
    destruct (await (SignIn (trim email) password) a) as [[e'|[]] a'];
      simpl in *; [|done]. injection Hres as ->.
    unfold has_code. destruct (code e) as [c|]; simpl.
    + split; [by repeat case_match|].
      repeat case_match; eexists; (split; [reflexivity|]);
        (split; [|split; [|split; [|split; [|split]]]]);
        try (intros [= ->]; try done;
             match goal with
             | H : String.eqb _ _ = false |- _ => by vm_compute in H
             end).
      all: intros Hn1 Hn2 Hn3 Hn4 Hn5; try done.
      all: match goal with
           | H : String.eqb _ _ = true |- _ =>
               apply String.eqb_eq in H; subst; congruence
           end.
    + split; [done|]. eexists. split; [reflexivity|]. by repeat split.
  - intros u rest Hr. rewrite Hr in Hawait. destruct Hawait as (_ & _ & _ & Hres & Hu).
    run_auth. rewrite He, Hv. simpl.
    destruct (await (SignIn (trim email) password) a) as [[e'|[]] a'];
      simpl in *; [done|]. by rewrite Hu.
  - intros Hr. run_auth. rewrite He, Hv. simpl.
    destruct (await (SignIn (trim email) password) a) as [[e'|[]] a'] eqn:Ha;
      simpl in *; destruct Hr as [Hr|[rest Hr]]; rewrite Hr in Hawait;
      destruct Hawait as (_ & _ & _ & Hres & Hu); try done; by rewrite Hu.
Qed.

(** X21: register turns away a password of fewer than six characters before
    calling the SDK; and when the account has been created but setting the
    display name is rejected, it throws although the account exists. *)
Theorem register_outcomes email password (displayName : option ustring) a :
  empty email || empty password = false -> isValidEmail email = true ->
  ((length password < 6)%nat ->
     register email password displayName a
     = (inl (plain "Password must be at least 6 characters long"),
        logged "Registration error:" a)) /\
  ((6 <= length password)%nat ->
     forall c name ev e rest,
       displayName = Some (c :: name) ->
       replies a = Fulfilled ev :: Rejected e :: rest ->
       (exists m, (register email password displayName a).1 = inl (plain m)) /\
       requests (register email password displayName a).2
       = requests a ++ [CreateUser email password; UpdateProfile (c :: name)]) /\
  ((6 <= length password)%nat ->
     forall ev rest,
       displayName = None \/ displayName = Some [] ->
       replies a = Fulfilled ev :: rest ->
       (exists u, (register email password displayName a).1 = inr u) /\
       requests (register email password displayName a).2
       = requests a ++ [CreateUser email password]).
Proof.
  intros He Hv. split; [|split].
  - intros Hshort%Nat.ltb_lt. run_auth. by rewrite He, Hv, Hshort.
  - intros Hlong%Nat.ltb_ge c name ev e rest -> Hr.
    run_auth. rewrite He, Hv, Hlong. simpl.
    rewrite (trim_valid _ Hv).
    pose proof (await_cases (CreateUser email password) a) as H1.
    rewrite Hr in H1.
    destruct (await (CreateUser email password) a) as [[e1|[]] a1] eqn:Ha1;
      simpl in *; [by destruct ev as [?|]; destruct H1 as (_ & _ & _ & ? & _)|].
    destruct H1 as (Hq1 & Hp1 & _ & _).
    pose proof (await_cases (UpdateProfile (c :: name)) a1) as H2.
    rewrite Hp1 in H2. simpl in H2.
    destruct (await (UpdateProfile (c :: name)) a1) as [[e2|[]] a2] eqn:Ha2;
      simpl in *; destruct H2 as (Hq2 & _ & _ & Hres & _); [|done].
    assert (forall m, requests (logged m a2) = requests a2) as Hlog by done.
    split.
    + repeat case_match; by eexists.
    + repeat case_match; simpl; rewrite Hq2, Hq1, <- (assoc_L (++)); done.
  - intros Hlong%Nat.ltb_ge ev rest Hname Hr.
    run_auth. rewrite He, Hv, Hlong. simpl.
    rewrite (trim_valid _ Hv).
    pose proof (await_cases (CreateUser email password) a) as H1.
    rewrite Hr in H1.
    destruct (await (CreateUser email password) a) as [[e1|[]] a1] eqn:Ha1;
      simpl in *; [by destruct ev as [?|]; destruct H1 as (_ & _ & _ & ? & _)|].
    destruct H1 as (Hq1 & _).
    destruct Hname as [->| ->]; simpl; split; by eauto.
Qed.

(** X22: resetPassword never tells the caller that the email is malformed:
    its own check throws inside the [try], and the [catch] replaces that
    message, as it does every error without a known code, by the general
    one.  Whatever happens, it returns true or throws one of three
    messages, and for an empty or malformed email it sends nothing. *)
Theorem resetPassword_outcomes email a :
  (empty email || negb (isValidEmail email) = true ->
     resetPassword email a
     = (inl (plain "Failed to send password reset email. Please try again."),
        logged "Password reset error:" a)) /\
  ((resetPassword email a).1 = inr true \/
   (resetPassword email a).1 = inl (plain "No account found with this email address") \/
   (resetPassword email a).1 = inl (plain "Invalid email address") \/
   (resetPassword email a).1
   = inl (plain "Failed to send password reset email. Please try again.")) /\
  (resetPassword email a).1 <> inl (plain "Please enter a valid email address").
Proof.
  assert ((resetPassword email a).1 = inr true \/
          (resetPassword email a).1 = inl (plain "No account found with this email address") \/
          (resetPassword email a).1 = inl (plain "Invalid email address") \/
          (resetPassword email a).1
          = inl (plain "Failed to send password reset email. Please try again."))
    as Hall.
  { run_auth. destruct (empty email || negb (isValidEmail email)); simpl.
    - auto.
    - destruct (await (SendPasswordResetEmail (trim email)) a) as [[e|[]] a'];
        simpl; [|by left].
      repeat case_match; auto. }
  split; [|split; [exact Hall|]].
  - intros Hbad. run_auth. by rewrite Hbad.
  - by destruct Hall as [->|[->|[->| ->]]].
Qed.

(** X23: every error that login, register, logout and resetPassword throw
    is a fresh [Error] without a code: the Firebase error itself never
    reaches the caller, only a message does. *)
Theorem thrown_errors_are_plain a (e : Thrown) :
  (forall email password, (login email password a).1 = inl e -> code e = None) /\
  (forall email password displayName,
     (register email password displayName a).1 = inl e -> code e = None) /\
  ((logout a).1 = inl e -> code e = None) /\
  (forall email, (resetPassword email a).1 = inl e -> code e = None).
Proof.
  split; [|split; [|split]].
  - intros email password. run_auth.
    repeat (case_match; simpl in *; simplify_eq); try done;
      by intros [= <-].
  - intros email password displayName. run_auth.
    repeat (case_match; simpl in *; simplify_eq); try done;
      by intros [= <-].
  - run_auth. repeat (case_match; simpl in *; simplify_eq); try done;
      by intros [= <-].
  - intros email. run_auth.
    repeat (case_match; simpl in *; simplify_eq); try done;
      by intros [= <-].
Qed.

(** ** Listeners *)

Lemma remove_first_notin (callback : Callback) (l : list Callback) :
  callback ∉ l -> remove_first callback l = l.
Proof.
  induction l as [|x l IH]; [done|]. intros [Hx Hl]%not_elem_of_cons.
  simpl. rewrite decide_False by done. by rewrite IH.
Qed.

Lemma remove_first_app (callback : Callback) (l l' : list Callback) :
  callback ∉ l -> remove_first callback (l ++ callback :: l') = l ++ l'.
Proof.
  induction l as [|x l IH]; simpl.
  - intros _. by rewrite decide_True.
  - intros [Hx Hl]%not_elem_of_cons. rewrite decide_False by done. by rewrite IH.
Qed.

Lemma remove_first_in (callback : Callback) (l l' : list Callback) :
  callback ∈ l -> remove_first callback (l ++ l') = remove_first callback l ++ l'.
Proof.
  induction l as [|x l IH]; [by intros ?%elem_of_nil|].
  intros Hin. simpl. case_decide; [done|].
  apply elem_of_cons in Hin as [->|Hin]; [done|]. by rewrite IH.
Qed.

Lemma remove_first_others (callback other : Callback) (l : list Callback) :
  other <> callback -> other ∈ remove_first callback l <-> other ∈ l.
Proof.
  intros Hne. induction l as [|x l IH]; [done|]. simpl. case_decide.
  - subst. rewrite elem_of_cons. split; [by right|]. by intros [?|?].
  - rewrite !elem_of_cons. by rewrite IH.
Qed.

(** X24: unsubscribing takes out one registration of the callback, the
    earliest, and nothing else.  A callback that is not registered is left
    alone, so calling the returned function twice is harmless; subscribing a
    callback that was not registered and unsubscribing it restores the
    instance; if it was already registered, the earlier registration is the
    one that goes. *)
Theorem unsubscribe_one_registration (callback : Callback) a :
  let l := authStateListeners a in
  (callback ∉ l -> unsubscribe callback a = a) /\
  (callback ∉ l -> unsubscribe callback (onAuthStateChange callback a) = a) /\
  (callback ∈ l ->
     authStateListeners (unsubscribe callback (onAuthStateChange callback a))
     = remove_first callback l ++ [callback] /\
     length (authStateListeners (unsubscribe callback a)) = pred (length l)) /\
  (forall other, other <> callback ->
     other ∈ authStateListeners (unsubscribe callback a) <-> other ∈ l).
Proof.
  intros l. subst l. unfold unsubscribe, onAuthStateChange, set_listeners. simpl.
  split; [|split; [|split]].
  - intros Hout. rewrite remove_first_notin by done. by destruct a.
  - intros Hout. rewrite remove_first_app by done.
    rewrite (right_id_L [] (++)). by destruct a.
  - intros Hin. split; [by apply remove_first_in|].
    induction (authStateListeners a) as [|x l IH]; [by apply elem_of_nil in Hin|].
    simpl. case_decide; [done|].
    apply elem_of_cons in Hin as [->|Hin]; [done|].
    simpl. rewrite IH by done. destruct l; [by apply elem_of_nil in Hin|done].
  - intros other Hne. by apply remove_first_others.
Qed.

(** Calling a run of external callbacks, one after the other. *)
Lemma forEach_externals (ids : list nat) (pre rest : list Callback)
    (steps : nat) (u : option User) a :
  authStateListeners a = pre ++ (External <$> ids) ++ rest ->
  exists a',
    forEach (length ids + steps) (length pre) u a
    = forEach steps (length pre + length ids) u a' /\
    authStateListeners a' = authStateListeners a /\
    resolved a' = resolved a /\
    called a' = called a ++ ((fun i => (i, u)) <$> ids) /\
    currentUser a' = currentUser a.
Proof.
  revert pre a. induction ids as [|i ids IH]; intros pre a Hl.
  - exists a. simpl. rewrite Nat.add_0_r, (right_id_L [] (++)). done.
  - assert (authStateListeners a !! length pre = Some (External i)) as Hk.
    { rewrite Hl, lookup_app_r by done. by rewrite Nat.sub_diag. }
    destruct (IH (pre ++ [External i]) (add_called i u a))
      as (a' & Hf & Hl' & Hr & Hc & Hu).
    { change (authStateListeners (add_called i u a)) with (authStateListeners a).
      rewrite Hl. rewrite <- (assoc_L (++)). done. }
    rewrite length_app in Hf. simpl length in Hf. rewrite Nat.add_1_r in Hf.
    exists a'.
    split; [|split; [done|split; [done|split; [|done]]]].
    + change (length (i :: ids) + steps)%nat with (S (length ids + steps)).
      cbn [forEach]. rewrite Hk. cbn [invoke]. rewrite Hf. f_equal.
      simpl length. lia.
    + rewrite Hc. simpl. by rewrite <- (assoc_L (++)).
Qed.




(** X26: a callback registered right behind a pending waitForAuth misses the
    auth state change that settles the wait: the waiter takes itself off the
    list while [forEach] is running over it, the callbacks behind move up
    one place, and the one that moves into the waiter's place is never
    visited; all the others are called. *)
Theorem listener_behind_waiter_is_skipped (pre post : list nat) (w e : nat)
    (u : option User) a :
  authStateListeners a
  = (External <$> pre) ++ Waiter w :: External e :: (External <$> post) ->
  let changed := authStateChanged u a in
  called changed = called a ++ ((fun i => (i, u)) <$> pre ++ post) /\
  resolved changed = resolved a ++ [(w, u)] /\
  authStateListeners changed
  = (External <$> pre) ++ External e :: (External <$> post) /\
  (e ∉ pre ++ post -> forall v, (e, v) ∉ drop (length (called a)) (called changed)).
Proof.
  intros Hl changed.
  assert (Waiter w ∉ External <$> pre) as Hfresh.
  { intros (i & [=] & _)%list_elem_of_fmap. }
  assert (authStateListeners (set_currentUser u a)
          = [] ++ (External <$> pre) ++ Waiter w :: External e :: (External <$> post))
    as Hl1 by done.
  destruct (forEach_externals pre [] _ (2 + length post) u _ Hl1)
    as (a1 & Hf1 & Hl1' & Hr1 & Hc1 & _).
  set (a2 := add_resolved w u (unsubscribe (Waiter w) a1)).
  assert (authStateListeners a2
          = ((External <$> pre) ++ [External e]) ++ (External <$> post) ++ [])
    as Hl2.
  { unfold a2. simpl. rewrite Hl1', Hl1. simpl.
    rewrite remove_first_app by done.
    by rewrite (right_id_L [] (++)), <- (assoc_L (++)). }
  destruct (forEach_externals post _ [] 1 u a2 Hl2)
    as (a3 & Hf3 & Hl3 & Hr3 & Hc3 & _).
  assert (changed = a3) as ->.
  { unfold changed, authStateChanged. cbv zeta. rewrite Hl1.
    rewrite app_nil_l, length_app, length_fmap.
    change (length [] + length pre)%nat with (length pre) in Hf1.
    change (length (@nil Callback)) with 0%nat in Hf1.
    replace (length (Waiter w :: External e :: (External <$> post)))
      with (2 + length post)%nat by (simpl; by rewrite length_fmap).
    rewrite Hf1.
    change (2 + length post)%nat with (S (1 + length post)).
    cbn [forEach]. rewrite Hl1', Hl1, app_nil_l.
    rewrite lookup_app_r by (by rewrite length_fmap).
    rewrite length_fmap, Nat.sub_diag. cbn [lookup list_lookup invoke]. fold a2.
    rewrite length_app, length_fmap in Hf3. simpl length in Hf3.
    replace (length pre + 1)%nat with (S (length pre)) in Hf3 by lia.
    replace (length post + 1)%nat with (1 + length post)%nat in Hf3 by lia.
    rewrite Hf3. cbn [forEach].
    rewrite Hl3, Hl2, (right_id_L [] (++)).
    rewrite lookup_ge_None_2; [done|].
    rewrite !length_app, !length_fmap. simpl. lia. }
  assert (called a3 = called a ++ ((fun i => (i, u)) <$> pre ++ post)) as Hcalled.
  { rewrite Hc3. unfold a2. simpl. rewrite Hc1. simpl.
    by rewrite fmap_app, (assoc_L (++)). }
  split; [done|]. split; [by rewrite Hr3; unfold a2; simpl; rewrite Hr1|].
  split; [by rewrite Hl3, Hl2, (right_id_L [] (++)), <- (assoc_L (++))|].
  intros Hout v. rewrite Hcalled, drop_app_length.
  intros (i & [= <- _] & Hin)%list_elem_of_fmap. done.
Qed.

End Methods.

Lemma login_checks_first_witness :
  let a := Auth.constructor (User := nat) [] in
  (login [] [112; 119]%N a).1 = inl (plain "Email and password are required") /\
  (login [97; 64; 98]%N [112; 119]%N a).1 = inl (plain "Invalid email format") /\
  requests (login [97; 64; 98; 46; 99]%N [112; 119]%N a).2
    = [SignIn [97; 64; 98; 46; 99]%N [112; 119]%N].
Proof.
  intros a.
  destruct (login_checks_first [] [112; 119]%N a) as (H1 & _ & _).
  destruct (login_checks_first [97; 64; 98]%N [112; 119]%N a) as (_ & H2 & _).
  destruct (login_checks_first [97; 64; 98; 46; 99]%N [112; 119]%N a) as (_ & _ & H3).
  split; [by rewrite H1|]. split; [by rewrite H2|]. by apply H3.
Defined.

Lemma login_outcomes_witness :
  let a := Auth.constructor (User := nat)
             [Rejected {| code := Some "auth/wrong-password"; message := "x" |}] in
  let b := Auth.constructor (User := nat)
             [Rejected {| code := Some "auth/network-request-failed";
                          message := "Network error" |}] in
  (exists m, (login [97; 64; 98; 46; 99]%N [112; 119]%N a).1 = inl (plain m) /\
             (Some "auth/wrong-password" = Some "auth/wrong-password" ->
              m = "Incorrect password")) /\
  (login [97; 64; 98; 46; 99]%N [112; 119]%N b).1 = inl (plain "Network error").
Proof.
  intros a b.
  destruct (proj1 (login_outcomes [97; 64; 98; 46; 99]%N [112; 119]%N a
                     eq_refl eq_refl) _ _ eq_refl)
    as (_ & m & Hm & _ & Hwrong & _).
  destruct (proj1 (login_outcomes [97; 64; 98; 46; 99]%N [112; 119]%N b
                     eq_refl eq_refl) _ _ eq_refl)
    as (_ & m' & Hm' & _ & _ & _ & _ & _ & Hother).
  split; [exists m; split; [exact Hm|exact Hwrong]|].
  rewrite Hm'. f_equal. f_equal.
  apply Hother; discriminate.
Defined.

Lemma register_outcomes_witness :
  let a := Auth.constructor (User := nat)
             [Fulfilled None; Rejected {| code := None; message := "offline" |}] in
  requests (register [97; 64; 98; 46; 99]%N [49; 50; 51; 52; 53; 54]%N
              (Some [65]%N) a).2
  = [CreateUser [97; 64; 98; 46; 99]%N [49; 50; 51; 52; 53; 54]%N;
     UpdateProfile [65]%N].
Proof.
  intros a.
  refine (proj2 (proj1 (proj2 (register_outcomes [97; 64; 98; 46; 99]%N
                                 [49; 50; 51; 52; 53; 54]%N (Some [65]%N) a
                                 eq_refl eq_refl)) _ _ _ _ _ _ eq_refl eq_refl)).
  simpl. lia.
Defined.

Lemma resetPassword_outcomes_witness :
  resetPassword [97; 32; 64; 98]%N (Auth.constructor (User := nat) [])
  = (inl (plain "Failed to send password reset email. Please try again."),
     logged "Password reset error:" (Auth.constructor (User := nat) [])).
Proof.
  apply (resetPassword_outcomes [97; 32; 64; 98]%N). reflexivity.
Defined.

Lemma thrown_errors_are_plain_witness :
  let a := Auth.constructor (User := nat)
             [Rejected {| code := Some "auth/network-request-failed";
                          message := "Network error" |}] in
  (logout a).1 = inl (plain "Failed to sign out. Please try again.") /\
  code (plain "Failed to sign out. Please try again.") = None.
Proof.
  intros a. split; [reflexivity|].
  apply (thrown_errors_are_plain a). reflexivity.
Defined.

Lemma unsubscribe_one_registration_witness :
  let a := onAuthStateChange (External 7) (Auth.constructor (User := nat) []) in
  unsubscribe (External 3) (onAuthStateChange (External 3) a) = a.
Proof.
  intros a.
  apply (unsubscribe_one_registration (External 3) a).
  by intros [=]%list_elem_of_singleton.
Defined.


Lemma listener_behind_waiter_is_skipped_witness :
  let a := onAuthStateChange (External 7)
             (waitForAuth (Auth.constructor (User := nat) [])).2 in
  called (authStateChanged (Some 42%nat) a) = [] /\
  resolved (authStateChanged (Some 42%nat) a) = [(0%nat, Some 42%nat)].
Proof.
  intros a.
  destruct (listener_behind_waiter_is_skipped [] [] 0 7 (Some 42%nat) a eq_refl)
    as (Hc & Hr & _).
  split; [exact Hc|exact Hr].
Defined.

Lemma isValidEmail_shape_witness :
  exists local domain last,
    [97; 64; 98; 46; 99]%N = local ++ 64%N :: domain ++ 46%N :: last /\
    local <> [] /\ domain <> [] /\ last <> [] /\
    Forall (fun c => not_space_or_at c = true) (local ++ domain ++ last).
Proof.
  apply (proj1 (isValidEmail_shape [97; 64; 98; 46; 99]%N)). reflexivity.
Defined.

End AuthFacts.
